(** * Forest Focus: the pomodoro engine and its durable store

    A shallow embedding of [hooks/usePomodoro.js] (the timer hook), of the
    storage helpers [loadState]/[saveState] and of the audio preference save
    of [hooks/useAudio.js]; further, of the state of the audio hook
    (mute, volume, ambience, the chime), of [randomQuote], and of what
    [App.js], [ProgressCircle.jsx] (with its settings form) and
    [Plant.jsx] compute from the timer: the document title, the time
    readout, the ring offset and the plant scale.  The Web Audio graph and
    the SVG markup are not embedded.

    Conventions of the embedding.
    - A JavaScript number is an exact rational ([Q]) or one of the three
      non-finite doubles; the rounding error of double arithmetic is not
      modelled.  Comparisons of numbers are the order of [Q], and [===] on
      numbers is [Qeq].
    - A React state cell is a field of the record [hook]; a batch of setter
      calls made by one callback is one transition of that record, the
      updates being applied in the order in which they are queued.  A
      setter called from inside an updater function is queued behind that
      updater, so its value replaces the one the updater returns.
    - A [useRef] cell is a field of the same record.
    - A callback memoised by [useCallback] sees the variables of the render
      in which it was created.  [start], [reset] and [setDurations] list the
      state they read in their dependency arrays and therefore read current
      state.  [tick] is memoised with the empty array: it is the closure of
      the first render for ever, and so is the [handleSessionComplete] it
      calls.  The values that closure captured are kept in the fields
      [mount_mode], [mount_focusMinutes] and [mount_breakMinutes].
    - Readings of [Date.now()], [performance.now()] and [Math.random()] are
      arguments of the operation that makes them. *)

From Stdlib Require Import QArith Qminmax Qround Lqa Ascii.
From stdpp Require Import gmap strings list fin_maps pretty.

Local Open Scope Q_scope.
Local Open Scope string_scope.

(** ** JavaScript values *)

Module JS.

(** [number]: a finite double, [Infinity], [-Infinity] or [NaN]. *)
Inductive number : Type :=
  | Fin (q : Q)
  | PosInf
  | NegInf
  | NaN.

(** The primitive values a caller can hand to the hook. *)
Inductive value : Type :=
  | VUndefined
  | VNull
  | VBool (b : bool)
  | VNum (n : number)
  | VStr (s : string).

(** The values a JSON text can hold under a key of the record. *)
Inductive json : Type :=
  | JNull
  | JBool (b : bool)
  | JNum (q : Q)
  | JStr (s : string).

Definition of_json (j : json) : value :=
  match j with
  | JNull => VNull
  | JBool b => VBool b
  | JNum q => VNum (Fin q)
  | JStr s => VStr s
  end.

(** [a ?? b] *)
Definition nullish (a b : value) : value :=
  match a with
  | VUndefined | VNull => b
  | _ => a
  end.

(** [Number.isFinite(n)]: no coercion, false for every non-number. *)
Definition Number_isFinite (v : value) : bool :=
  match v with
  | VNum (Fin _) => true
  | _ => false
  end.

(** [Math.round] on a finite number: the nearest integer, ties upwards. *)
Definition Math_round (x : Q) : Q := inject_Z (Qfloor (x + (1 # 2))).

(** [x < y] on finite numbers. *)
Definition Qltb (x y : Q) : bool := negb (Qle_bool y x).

End JS.

Import JS.

(** ** Helpers of usePomodoro.js *)

(** [function minutesToMs(m) { return Math.round(m * 60 * 1000); }] *)
Definition minutesToMs (m : Q) : Q := Math_round (m * 60 * 1000).

(** [function clamp(n, min, max)
      { return Math.max(min, Math.min(max, Number.isFinite(n) ? n : min)); }]
    The bounds are the finite constants of [limits]; the result is finite. *)
Definition clamp (n : value) (min max : Q) : Q :=
  Qmax min (Qmin max (match n with
                      | VNum (Fin q) => q
                      | _ => min
                      end)).

Definition all_species : list string := ["fern"; "sapling"; "sprout"; "bamboo"].

(** [function pickSpecies(persisted)]: the persisted species when it is one
    of the four, otherwise [all[Math.floor(Math.random() * all.length)]];
    [rnd] is the reading of [Math.random()].  An index outside the array
    yields [undefined], here [None]. *)
Definition random_species (rnd : Q) : option string :=
  match Qfloor (rnd * 4) with
  | Zneg _ => None
  | i => all_species !! Z.to_nat i
  end.

Definition pickSpecies (rnd : Q) (persisted : value) : option string :=
  match persisted with
  | VStr s =>
      if bool_decide (s ∈ all_species) then Some s else random_species rnd
  | _ => random_species rnd
  end.


(** ** The durable store (utils/storage.js) *)

Module Storage.

(** The object kept under the key: its own enumerable keys and their values. *)
Abbreviation obj := (gmap string json).

(** A string held by [localStorage].  A text that [JSON.parse] accepts is
    identified with the document it denotes, so that
    [JSON.parse (JSON.stringify o)] is [o]; the documents considered are
    the objects and [null].  [Unparsable s] is a string [s] that
    [JSON.parse] rejects; the empty string is one of them. *)
Inductive text : Type :=
  | Serialized (d : option obj)
  | Unparsable (s : string).

(** [localStorage]: the string under [KEY], if any, and whether the browser
    refuses reads (storage disabled) or writes (quota, private mode). *)
Record storage : Type := Store {
  item : option text;
  read_denied : bool;
  write_denied : bool
}.

(** A JavaScript computation either returns or throws. *)
Inductive outcome (A : Type) : Type :=
  | Normal (a : A)
  | Throws (e : string).
Arguments Normal {A} a.
Arguments Throws {A} e.

#[export] Instance outcome_ret : MRet outcome := fun A a => Normal a.
#[export] Instance outcome_bind : MBind outcome := fun A B k c =>
  match c with
  | Normal a => k a
  | Throws e => Throws e
  end.

(** [try { body } catch (e) { handler }] *)
Definition try_catch {A} (body : outcome A) (handler : string -> outcome A)
  : outcome A :=
  match body with
  | Normal a => Normal a
  | Throws e => handler e
  end.

Definition getItem (st : storage) : outcome (option text) :=
  if read_denied st then Throws "SecurityError" else Normal (item st).

Definition setItem (t : text) (st : storage) : outcome storage :=
  if write_denied st then Throws "QuotaExceededError"
  else Normal (Store (Some t) (read_denied st) (write_denied st)).

Definition JSON_parse (t : text) : outcome (option obj) :=
  match t with
  | Serialized d => Normal d
  | Unparsable _ => Throws "SyntaxError"
  end.

Definition JSON_stringify (o : obj) : text := Serialized (Some o).

(** [!raw] for a string or [null]. *)
Definition falsy (raw : option text) : bool :=
  match raw with
  | None => true
  | Some (Unparsable s) => String.eqb s ""
  | Some (Serialized _) => false
  end.

(** [export function loadState()] *)
Definition loadState (st : storage) : outcome (option obj) :=
  try_catch
    (raw ← getItem st;
     if falsy raw then Normal None
     else match raw with
          | Some t => JSON_parse t
          | None => Normal None
          end)
    (fun _ => Normal None).

(** [{ ...current, ...patch }]: the keys of [patch] win. *)
Definition spread (current patch : obj) : obj := patch ∪ current.

(** [export function saveState(patch)]; the result is the store afterwards. *)
Definition saveState (patch : obj) (st : storage) : outcome storage :=
  try_catch
    (current ← loadState st;
     let next := spread (default ∅ current) patch in
     setItem (JSON_stringify next) st)
    (fun _ => Normal st).

End Storage.

Import Storage.

(** ** The hook usePomodoro *)

Definition DEFAULT_FOCUS : Q := 25.
Definition DEFAULT_BREAK : Q := 5.

Module limits.
Definition minFocus : Q := 5.
Definition maxFocus : Q := 120.
Definition minBreak : Q := 1.
Definition maxBreak : Q := 60.
End limits.

(** The cells of the hook.  [species] is [None] when [pickSpecies] returned
    [undefined].  [rafId] tells whether an animation frame is requested and
    not cancelled. *)
Record hook : Type := Hook {
  (* useState *)
  focusMinutes : Q;
  breakMinutes : Q;
  mode : string;
  isRunning : bool;
  remainingMs : Q;
  sessionCount : Q;
  species : option string;
  (* useRef *)
  rafId : bool;
  ticking : bool;
  lastPerf : option Q;
  (* what the closure of tick, created by the first render, captured *)
  mount_mode : string;
  mount_focusMinutes : Q;
  mount_breakMinutes : Q
}.

Definition setFocusMinutes (v : Q) (h : hook) : hook :=
  Hook v (breakMinutes h) (mode h) (isRunning h) (remainingMs h)
       (sessionCount h) (species h) (rafId h) (ticking h) (lastPerf h)
       (mount_mode h) (mount_focusMinutes h) (mount_breakMinutes h).

Definition setBreakMinutes (v : Q) (h : hook) : hook :=
  Hook (focusMinutes h) v (mode h) (isRunning h) (remainingMs h)
       (sessionCount h) (species h) (rafId h) (ticking h) (lastPerf h)
       (mount_mode h) (mount_focusMinutes h) (mount_breakMinutes h).

Definition setMode (v : string) (h : hook) : hook :=
  Hook (focusMinutes h) (breakMinutes h) v (isRunning h) (remainingMs h)
       (sessionCount h) (species h) (rafId h) (ticking h) (lastPerf h)
       (mount_mode h) (mount_focusMinutes h) (mount_breakMinutes h).

Definition setIsRunning (v : bool) (h : hook) : hook :=
  Hook (focusMinutes h) (breakMinutes h) (mode h) v (remainingMs h)
       (sessionCount h) (species h) (rafId h) (ticking h) (lastPerf h)
       (mount_mode h) (mount_focusMinutes h) (mount_breakMinutes h).

Definition setRemainingMs (v : Q) (h : hook) : hook :=
  Hook (focusMinutes h) (breakMinutes h) (mode h) (isRunning h) v
       (sessionCount h) (species h) (rafId h) (ticking h) (lastPerf h)
       (mount_mode h) (mount_focusMinutes h) (mount_breakMinutes h).

Definition setSessionCount (v : Q) (h : hook) : hook :=
  Hook (focusMinutes h) (breakMinutes h) (mode h) (isRunning h)
       (remainingMs h) v (species h) (rafId h) (ticking h) (lastPerf h)
       (mount_mode h) (mount_focusMinutes h) (mount_breakMinutes h).

Definition set_rafId (v : bool) (h : hook) : hook :=
  Hook (focusMinutes h) (breakMinutes h) (mode h) (isRunning h)
       (remainingMs h) (sessionCount h) (species h) v (ticking h) (lastPerf h)
       (mount_mode h) (mount_focusMinutes h) (mount_breakMinutes h).

Definition set_ticking (v : bool) (h : hook) : hook :=
  Hook (focusMinutes h) (breakMinutes h) (mode h) (isRunning h)
       (remainingMs h) (sessionCount h) (species h) (rafId h) v (lastPerf h)
       (mount_mode h) (mount_focusMinutes h) (mount_breakMinutes h).

Definition set_lastPerf (v : option Q) (h : hook) : hook :=
  Hook (focusMinutes h) (breakMinutes h) (mode h) (isRunning h)
       (remainingMs h) (sessionCount h) (species h) (rafId h) (ticking h) v
       (mount_mode h) (mount_focusMinutes h) (mount_breakMinutes h).

(** [mode === 'focus' ? focusMinutes : breakMinutes] *)
Definition minutes_of (m : string) (f b : Q) : Q :=
  if String.eqb m "focus" then f else b.

(** [const totalMs = useMemo(...)] *)
Definition totalMs (h : hook) : Q :=
  minutesToMs (minutes_of (mode h) (focusMinutes h) (breakMinutes h)).

(** *** Reading the persisted record *)

(** [persisted?.k] *)
Definition prop (persisted : option obj) (k : string) : value :=
  match persisted with
  | None => VUndefined
  | Some o =>
      match o !! k with
      | None => VUndefined
      | Some j => of_json j
      end
  end.

(** The hook validates the two durations ([clamp]) and the species
    ([pickSpecies]) and takes every other field as it is.  The embedding
    reads those fields at the types of the record schema (mode: string,
    isRunning: boolean, remainingMs, sessionCount: number, endAt: number or
    null); a record holding a value of another type there is outside the
    model and [usePomodoro] is [None] on it. *)
Definition as_string (v : value) : option string :=
  match v with VStr s => Some s | _ => None end.

Definition as_bool (v : value) : option bool :=
  match v with VBool b => Some b | _ => None end.

Definition as_number (v : value) : option Q :=
  match v with VNum (Fin q) => Some q | _ => None end.

Definition as_nullable_number (v : value) : option (option Q) :=
  match v with
  | VUndefined | VNull => Some None
  | VNum (Fin q) => Some (Some q)
  | _ => None
  end.

(** Truthiness of a number or [null]/[undefined]: zero is falsy. *)
Definition truthy (n : option Q) : bool :=
  match n with
  | Some q => negb (Qeq_bool q 0)
  | None => false
  end.

(** *** The tick loop *)

(** [startTicking]; [perf] is the reading of [performance.now()]. *)
Definition startTicking (perf : Q) (h : hook) : hook :=
  if ticking h then h
  else set_rafId true (set_lastPerf (Some perf) (set_ticking true h)).

(** [stopTicking] *)
Definition stopTicking (h : hook) : hook :=
  set_lastPerf None (set_rafId false (set_ticking false h)).

(** [handleSessionComplete] as [tick] sees it: the closure of the first
    render, reading the mode and the durations of that render.  It returns
    the new state and the [justCompleted] of the event it dispatches;
    [perf] is its reading of [performance.now()]. *)
Definition handleSessionComplete (perf : Q) (h : hook) : hook * list string :=
  let justCompleted :=
    if String.eqb (mount_mode h) "focus" then "focus" else "break" in
  let h1 :=
    if String.eqb (mount_mode h) "focus" then
      setRemainingMs (minutesToMs (mount_breakMinutes h))
        (setMode "break" (setSessionCount (sessionCount h + 1) h))
    else
      setRemainingMs (minutesToMs (mount_focusMinutes h)) (setMode "focus" h)
  in
  (set_lastPerf (Some perf) h1, [justCompleted]).

(** [tick]; [now] is its reading of [performance.now()], [perf] the one of
    [handleSessionComplete] when it runs.  The updater passed to
    [setRemainingMs] stores [next]; the setters called by
    [handleSessionComplete] from inside the updater are queued behind it and
    applied after it. *)
Definition tick (now perf : Q) (h : hook) : hook * list string :=
  if negb (ticking h) then (h, [])
  else
    let prev := default now (lastPerf h) in
    let delta := now - prev in
    let h1 := set_lastPerf (Some now) h in
    let prevMs := remainingMs h1 in
    let next := Qmax 0 (prevMs - delta) in
    let '(h2, events) :=
      if Qeq_bool next 0 && Qltb 0 prevMs
      then handleSessionComplete perf (setRemainingMs next h1)
      else (setRemainingMs next h1, [])
    in
    (set_rafId true h2, events).

(** *** Controls *)

(** [start]: [setRemainingMs(prev => (prev <= 0 ? totalMs : prev))],
    [setIsRunning(true)], [startTicking()]. *)
Definition start (perf : Q) (h : hook) : hook :=
  startTicking perf
    (setIsRunning true
       (setRemainingMs
          (if Qle_bool (remainingMs h) 0 then totalMs h else remainingMs h) h)).

(** [pause] *)
Definition pause (h : hook) : hook := stopTicking (setIsRunning false h).

(** [resume] *)
Definition resume (perf : Q) (h : hook) : hook :=
  startTicking perf (setIsRunning true h).

(** [reset] *)
Definition reset (h : hook) : hook :=
  setRemainingMs (totalMs h) (stopTicking (setIsRunning false h)).

(** [setDurations(focusM, breakM)] *)
Definition setDurations (focusM breakM : value) (h : hook) : hook :=
  let f := clamp focusM limits.minFocus limits.maxFocus in
  let b := clamp breakM limits.minBreak limits.maxBreak in
  setRemainingMs
    (if negb (isRunning h) then minutesToMs (minutes_of (mode h) f b)
     else remainingMs h)
    (setBreakMinutes b (setFocusMinutes f h)).

(** The [visibilitychange] listener. *)
Definition onVisibility (perf : Q) (h : hook) : hook :=
  set_lastPerf (Some perf) h.

(** The browser runs the requested animation frame, if there is one. *)
Definition frame (now perf : Q) (h : hook) : hook * list string :=
  if rafId h then tick now perf h else (h, []).

(** *** The first render and its effects *)

(** The [useState] initialiser of [remainingMs]; [date_now] is the reading
    of [Date.now()], [fallback] is
    [minutesToMs(mode === 'focus' ? focusMinutes : breakMinutes)]. *)
Definition initial_remainingMs (date_now : Q) (running : bool)
    (endAt stored : option Q) (fallback : Q) : Q :=
  if running && truthy endAt then
    let est := Qmax 0 (default 0 endAt - date_now) in
    let stored := default fallback stored in
    Qmin (Qmax est 0) (Qmax stored est)
  else default fallback stored.

(** The state after the first render of [usePomodoro()] and its mount
    effects, for the value [persisted] returned by [loadState()]. *)
Definition usePomodoro (date_now rnd perf : Q) (persisted : option obj)
  : option hook :=
  let focus0 :=
    clamp (nullish (prop persisted "focusMinutes") (VNum (Fin DEFAULT_FOCUS)))
          limits.minFocus limits.maxFocus in
  let break0 :=
    clamp (nullish (prop persisted "breakMinutes") (VNum (Fin DEFAULT_BREAK)))
          limits.minBreak limits.maxBreak in
  mode0 ← as_string (nullish (prop persisted "mode") (VStr "focus"));
  running0 ← as_bool (nullish (prop persisted "isRunning") (VBool false));
  endAt ← as_nullable_number (prop persisted "endAt");
  stored ← as_nullable_number (prop persisted "remainingMs");
  count0 ← as_number (nullish (prop persisted "sessionCount") (VNum (Fin 0)));
  let remaining0 :=
    initial_remainingMs date_now running0 endAt stored
      (minutesToMs (minutes_of mode0 focus0 break0)) in
  let species0 := pickSpecies rnd (prop persisted "species") in
  let h0 :=
    Hook focus0 break0 mode0 running0 remaining0 count0 species0
         false false None mode0 focus0 break0 in
  (* useEffect(() => { if (persisted?.isRunning && persisted?.endAt
                           && remainingMs > 0) ... }, []) *)
  Some (if running0 && truthy endAt && Qltb 0 remaining0
        then startTicking perf (setIsRunning true h0)
        else h0).

(** *** Persistence effect *)

Definition with_species (sp : option string) (o : obj) : obj :=
  match sp with
  | Some s => <["species" := JStr s]> o
  | None => o
  end.

(** The object built by the persistence effect; [now_endAt] and
    [now_savedAt] are its two readings of [Date.now()].  A key whose value is
    [undefined] is dropped by [JSON.stringify]. *)
Definition state_patch (now_endAt now_savedAt : Q) (h : hook) : obj :=
  <["focusMinutes" := JNum (focusMinutes h)]>
  (<["breakMinutes" := JNum (breakMinutes h)]>
  (<["isRunning" := JBool (isRunning h)]>
  (<["mode" := JStr (mode h)]>
  (<["remainingMs" := JNum (remainingMs h)]>
  (<["endAt" := if isRunning h then JNum (now_endAt + remainingMs h)
                else JNull]>
  (<["sessionCount" := JNum (sessionCount h)]>
  (with_species (species h)
  (<["savedAt" := JNum now_savedAt]> ∅)))))))).

(** [useEffect(() => { ...; saveState(state); }, [...])] *)
Definition persist (now_endAt now_savedAt : Q) (h : hook) (st : storage)
  : outcome storage :=
  saveState (state_patch now_endAt now_savedAt h) st.

(** ** saveState on any object *)

(** The timer hands [saveState] finite numbers, strings, booleans and
    [null], which [JSON.stringify] writes as they are: such a patch is an
    [obj], and [saveState] above is the function on those.  A caller can
    hand it any object; the properties of one, with primitive values: *)
Abbreviation js_object := (gmap string value).

(** What [JSON.stringify] writes for a property of an object: nothing when
    the value is [undefined], [null] for a number that is not finite. *)
Definition stringify_property (v : value) : option json :=
  match v with
  | VUndefined => None
  | VNull => Some JNull
  | VBool b => Some (JBool b)
  | VNum (Fin q) => Some (JNum q)
  | VNum _ => Some JNull
  | VStr s => Some (JStr s)
  end.

(** [JSON.stringify(o)] *)
Definition JSON_stringify_object (o : js_object) : text :=
  Serialized (Some (omap stringify_property o)).

(** [export function saveState(patch)] for any patch:
    [{ ...current, ...patch }] is an object of JavaScript values, with every
    own property of the patch, and [JSON.stringify] is applied to it. *)
Definition saveState_object (patch : js_object) (st : storage)
  : outcome storage :=
  try_catch
    (current ← loadState st;
     let next : js_object := patch ∪ (of_json <$> default ∅ current) in
     setItem (JSON_stringify_object next) st)
    (fun _ => Normal st).

(** The object that the persistence effect of usePomodoro.js hands to
    [saveState], with [species] as the hook holds it:
    [{ focusMinutes, breakMinutes, isRunning, mode, remainingMs,
       endAt: isRunning ? Date.now() + remainingMs : null,
       sessionCount, species, savedAt: Date.now() }]. *)
Definition state_object (now_endAt now_savedAt : Q) (h : hook) : js_object :=
  <["focusMinutes" := VNum (Fin (focusMinutes h))]>
  (<["breakMinutes" := VNum (Fin (breakMinutes h))]>
  (<["isRunning" := VBool (isRunning h)]>
  (<["mode" := VStr (mode h)]>
  (<["remainingMs" := VNum (Fin (remainingMs h))]>
  (<["endAt" := if isRunning h then VNum (Fin (now_endAt + remainingMs h))
                else VNull]>
  (<["sessionCount" := VNum (Fin (sessionCount h))]>
  (<["species" := match species h with
                  | Some sp => VStr sp
                  | None => VUndefined
                  end]>
  (<["savedAt" := VNum (Fin now_savedAt)]> ∅)))))))).

(** ** Runs of the engine *)

(** What can happen to a mounted hook: the five operations it exports, an
    animation frame and a visibility change. *)
Inductive action : Type :=
  | Start (perf : Q)
  | Pause
  | Resume (perf : Q)
  | Reset
  | SetDurations (focusM breakM : value)
  | Frame (now perf : Q)
  | Visibility (perf : Q).

Definition step (a : action) (h : hook) : hook * list string :=
  match a with
  | Start perf => (start perf h, [])
  | Pause => (pause h, [])
  | Resume perf => (resume perf h, [])
  | Reset => (reset h, [])
  | SetDurations f b => (setDurations f b h, [])
  | Frame now perf => frame now perf h
  | Visibility perf => (onVisibility perf h, [])
  end.

Fixpoint run (acts : list action) (h : hook) : hook * list string :=
  match acts with
  | [] => (h, [])
  | a :: rest =>
      let '(h1, ev1) := step a h in
      let '(h2, ev2) := run rest h1 in
      (h2, (ev1 ++ ev2)%list)
  end.

(** ** Output derived from the state: progress *)

(** [x / y] on finite numbers: a zero divisor gives an infinity, or NaN
    for [0 / 0]. *)
Definition Number_div (x y : Q) : number :=
  if Qeq_bool y 0 then
    if Qeq_bool x 0 then NaN else if Qltb 0 x then PosInf else NegInf
  else Fin (x / y).

(** [a - n] for a finite [a]. *)
Definition Number_rsub (a : Q) (n : number) : number :=
  match n with
  | Fin q => Fin (a - q)
  | PosInf => NegInf
  | NegInf => PosInf
  | NaN => NaN
  end.

(** [const progress = useMemo(() => {
       const p = 1 - remainingMs / totalMs;
       return isFinite(p) ? Math.max(0, Math.min(1, p)) : 0; }, ...)] *)
Definition progress (h : hook) : Q :=
  match Number_rsub 1 (Number_div (remainingMs h) (totalMs h)) with
  | Fin p => Qmax 0 (Qmin 1 p)
  | _ => 0
  end.

(** ** App.js: the document title and the time readout *)

(** Truncation towards zero, as [ToIntegerOrInfinity] does. *)
Definition Qtrunc (x : Q) : Z := Z.quot (Qnum x) (Zpos (Qden x)).

(** [x % y] on finite numbers, [y] not zero: the remainder has the sign of
    the dividend. *)
Definition Number_rem (x y : Q) : Q := x - y * inject_Z (Qtrunc (x / y)).

(** [s.padStart(n, c)] for a one-character pad string. *)
Fixpoint pad (k : nat) (c : Ascii.ascii) (s : string) : string :=
  match k with
  | O => s
  | S k => String c (pad k c s)
  end.

Definition padStart (n : nat) (c : Ascii.ascii) (s : string) : string :=
  pad (n - String.length s) c s.

(** [n.toString()] for an integer below 10^21 in absolute value. *)
Definition toString (n : Z) : string := pretty n.

(** The time part of the title:
    [const mins = Math.floor(remainingMs / 60000);
     const secs = Math.floor((remainingMs % 60000) / 1000);]
    and [mins.toString().padStart(2, '0')], a colon,
    [secs.toString().padStart(2, '0')]. *)
Definition title_time (remainingMs : Q) : string :=
  let mins := Qfloor (remainingMs / 60000) in
  let secs := Qfloor (Number_rem remainingMs 60000 / 1000) in
  padStart 2 "0"%char (toString mins) +:+ ":" +:+ padStart 2 "0"%char (toString secs).

(** [const title = useMemo(...)]: the time, the mode and the name of the
    application, separated by bullets. *)
Definition title (remainingMs : Q) (mode : string) : string :=
  title_time remainingMs +:+ " • "
    +:+ (if String.eqb mode "focus" then "Focus" else "Break")
    +:+ " • Forest Focus".

(** [new Date(remainingMs).toISOString().substr(14, 5)]: the minutes and
    seconds of the UTC time of day.  The time value is the argument
    truncated to an integer; within the years 0 to 9999 the ISO string is
    [YYYY-MM-DDTHH:mm:ss.sssZ] and characters 14 to 18 are [mm:ss].
    Outside those years the string has another layout or the call throws;
    the embedding is [None] there. *)
Definition time_readout (remainingMs : Q) : option string :=
  let t := Qtrunc remainingMs in
  if ((-62167219200000 <=? t) && (t <=? 253402300799999))%Z then
    Some (padStart 2 "0"%char (toString ((t / 60000) mod 60)%Z) +:+ ":"
          +:+ padStart 2 "0"%char (toString ((t / 1000) mod 60)%Z))
  else None.

(** ** Settings.jsx and its use in App.js *)

(** [const apply = () => { const f = clamp(focus, 5, 120);
      const b = clamp(brk, 1, 60); onChange(f, b); }]; the [clamp] of
    Settings.jsx is, word for word, the one of usePomodoro.js. *)
Definition Settings_apply {A : Type} (focus brk : value)
    (onChange : Q -> Q -> A) : A :=
  let f := clamp focus 5 120 in
  let b := clamp brk 1 60 in
  onChange f b.

(** A click on Apply in
    [<Settings onChange={(f, b) => setDurations(f, b)} disabled={isRunning} />];
    the button is disabled while the timer runs. *)
Definition App_apply_settings (focus brk : value) (h : hook) : hook :=
  if isRunning h then h
  else Settings_apply focus brk
         (fun f b => setDurations (VNum (Fin f)) (VNum (Fin b)) h).

(** ** ProgressCircle.jsx and Plant.jsx *)

(** [const offset = circumference * (1 - Math.min(1, Math.max(0, progress)))] *)
Definition ring_offset (circumference progress : Q) : Q :=
  circumference * (1 - Qmin 1 (Qmax 0 progress)).

(** [const scale = 0.6 + 0.6 * Math.min(1, Math.max(0, progress))] *)
Definition plant_scale (progress : Q) : Q :=
  (6 # 10) + (6 # 10) * Qmin 1 (Qmax 0 progress).

(** ** utils/quotes.js *)

Definition focusQuotes : list string :=
  [
    "Grow silently. Let your work be the leaves.";
    "Deep roots allow tall trees.";
    "Focus: one ring, one leaf, one moment.";
    "Small steps become forests.";
    "Breathe in calm, breathe out distraction.";
    "The forest doesn’t hurry, yet everything is accomplished.";
    "Tend to your attention like a garden.";
    "Stay present. You are planting your future.";
    "Quiet the noise; hear the wind in the leaves."
  ].

Definition breakQuotes : list string :=
  [
    "Rest is part of growth.";
    "Let your mind wander like leaves on a breeze.";
    "Unwind. The forest watches over you.";
    "Breathe. You are enough.";
    "Stretch gently. Roots deepen in stillness.";
    "Sip water like rain on soil.";
    "Relax shoulders; soften the gaze.";
    "The pause nourishes the next step."
  ].

(** [list[Math.floor(Math.random() * list.length)]]; an index outside the
    array yields [undefined], here [None]. *)
Definition random_element {A : Type} (rnd : Q) (l : list A) : option A :=
  match Qfloor (rnd * inject_Z (Z.of_nat (length l))) with
  | Zneg _ => None
  | i => l !! Z.to_nat i
  end.

(** [export function randomQuote(mode = 'focus')] *)
Definition randomQuote (rnd : Q) (mode : string) : option string :=
  let list := if String.eqb mode "break" then breakQuotes else focusQuotes in
  random_element rnd list.

(** ** The state of useAudio.js and the session listener of App.js *)

Module Audio.

(** [Math.min] and [Math.max] on numbers: NaN if an argument is NaN. *)
Definition Math_min (a b : number) : number :=
  match a, b with
  | NaN, _ | _, NaN => NaN
  | NegInf, _ | _, NegInf => NegInf
  | PosInf, x | x, PosInf => x
  | Fin x, Fin y => Fin (Qmin x y)
  end.

Definition Math_max (a b : number) : number :=
  match a, b with
  | NaN, _ | _, NaN => NaN
  | PosInf, _ | _, PosInf => PosInf
  | NegInf, x | x, NegInf => x
  | Fin x, Fin y => Fin (Qmax x y)
  end.

(** The [useState] cells of the hook.  The audio graph behind the refs
    (context, gain nodes, noise source) is not part of the embedding;
    [initialized] is set when [ensureContext] creates the context, and the
    embedding takes a browser in which that constructor succeeds.
    [listener_isMuted] is the [isMuted] of the first render: App.js
    registers its "pomodoro-session-complete" listener in an effect with
    an empty dependency array, so the listener keeps calling the
    [playChime] of the first render, which closes over that value. *)
Record state : Type := State {
  isMuted : bool;
  volume : number;
  isAmbientOn : bool;
  initialized : bool;
  listener_isMuted : bool
}.

Definition as_any_number (v : value) : option number :=
  match v with VNum n => Some n | _ => None end.

(** The first render: [useState(persisted?.soundMuted ?? false)],
    [useState(persisted?.volume ?? 0.6)],
    [useState(persisted?.ambientOn ?? false)]; as for the timer, a field of
    another type than the schema's is outside the model. *)
Definition useAudio (persisted : option obj) : option state :=
  muted ← as_bool (nullish (prop persisted "soundMuted") (VBool false));
  vol ← as_any_number
          (nullish (prop persisted "volume") (VNum (Fin (6 # 10))));
  ambient ← as_bool (nullish (prop persisted "ambientOn") (VBool false));
  Some (State muted vol ambient false muted).

(** [ensureContext], as far as the state goes. *)
Definition ensureContext (s : state) : state :=
  State (isMuted s) (volume s) (isAmbientOn s) true (listener_isMuted s).

(** [mute] *)
Definition mute (s : state) : state :=
  let s := ensureContext s in
  State true (volume s) (isAmbientOn s) (initialized s) (listener_isMuted s).

(** [unmute] *)
Definition unmute (s : state) : state :=
  let s := ensureContext s in
  State false (volume s) (isAmbientOn s) (initialized s) (listener_isMuted s).

(** [setVolume(v)]: [const clamped = Math.max(0, Math.min(1, v));
    setVolumeState(clamped)]. *)
Definition setVolume (v : number) (s : state) : state :=
  let s := ensureContext s in
  let clamped := Math_max (Fin 0) (Math_min (Fin 1) v) in
  State (isMuted s) clamped (isAmbientOn s) (initialized s)
        (listener_isMuted s).

(** [toggleAmbient(on)], called by App.js with a boolean. *)
Definition toggleAmbient (on : bool) (s : state) : state :=
  let s := ensureContext s in
  State (isMuted s) (volume s) on (initialized s) (listener_isMuted s).

(** [JSON.stringify] of a number: a non-finite one becomes [null]. *)
Definition number_json (n : number) : json :=
  match n with
  | Fin q => JNum q
  | _ => JNull
  end.

(** The preference effect:
    [const current = loadState() || {};
     saveState({ ...current, soundMuted: isMuted, volume, ambientOn: isAmbientOn })]. *)
Definition persist (s : state) (st : storage) : outcome storage :=
  current ← loadState st;
  saveState
    (spread (default ∅ current)
       (<["soundMuted" := JBool (isMuted s)]>
        (<["volume" := number_json (volume s)]>
         (<["ambientOn" := JBool (isAmbientOn s)]> ∅))))
    st.

(** One oscillator of a chime: its frequency, the times at which it starts
    and stops, and the peak of its gain envelope. *)
Record voice : Type := Voice {
  frequency : Q;
  starts : Q;
  peak : Q;
  stops : Q
}.

(** [type === 'focus' ? [440, 659.25, 880] : [392, 523.25]] *)
Definition notes (type : string) : list Q :=
  if String.eqb type "focus" then [440; 65925 # 100; 880]
  else [392; 52325 # 100].

Definition notification_body (type : string) : string :=
  if String.eqb type "focus" then "Focus session complete. Time for a break ðŸŒ¿" else "Break over. Letâ€™s grow again ðŸŒ±".

(** [playChime(type)] with the [isMuted] its closure holds.  It calls
    [ensureContext] and then does nothing when muted; otherwise it
    schedules one oscillator per note from the time [now] of the audio
    context and, when notifications are granted, shows a notification.
    The result is the state afterwards and what was scheduled and shown. *)
Definition playChime (closure_isMuted : bool) (now : Q) (granted : bool)
    (type : string) (s : state)
  : state * option (list voice * option string) :=
  (ensureContext s,
   if closure_isMuted then None
   else
     Some (imap (fun i freq =>
                   let i := inject_Z (Z.of_nat i) in
                   Voice freq (now + i * (15 # 100))
                         ((5 # 10) * (1 - i * (15 # 100)))
                         (now + i * (15 # 100) + (8 # 10)))
                (notes type),
           if granted then Some (notification_body type) else None)).

(** The listener of App.js:
    [(e) => onSessionEnd(e.detail?.justCompleted || 'focus')] with
    [onSessionEnd = (type) => playChime(type === 'focus' ? 'focus' : 'break')],
    both of the first render. *)
Definition onSessionComplete (s : state) (now : Q) (granted : bool)
    (justCompleted : string)
  : state * option (list voice * option string) :=
  let type := if String.eqb justCompleted "" then "focus" else justCompleted in
  playChime (listener_isMuted s) now granted
    (if String.eqb type "focus" then "focus" else "break") s.

(** What the user can do to the audio state. *)
Inductive op : Type :=
  | Mute
  | Unmute
  | SetVolume (v : number)
  | ToggleAmbient (on : bool).

Definition apply (o : op) (s : state) : state :=
  match o with
  | Mute => mute s
  | Unmute => unmute s
  | SetVolume v => setVolume v s
  | ToggleAmbient on => toggleAmbient on s
  end.

Definition run (ops : list op) (s : state) : state :=
  fold_left (fun s o => apply o s) ops s.

End Audio.

(** The object that the preference effect of useAudio.js hands to
    [saveState], [current] being what its own [loadState()] returned:
    [{ ...current, soundMuted: isMuted, volume, ambientOn: isAmbientOn }]. *)
Definition audio_object (current : option obj) (s : Audio.state)
  : js_object :=
  <["soundMuted" := VBool (Audio.isMuted s)]>
  (<["volume" := VNum (Audio.volume s)]>
  (<["ambientOn" := VBool (Audio.isAmbientOn s)]>
  (of_json <$> default ∅ current))).

(** * Vocabulary of the properties *)

(** ** Predicates on hooks, records and runs *)

(** The two durations of a hook lie in their ranges, and so do the two that
    the closure of [tick] captured. *)
Definition config_ok (h : hook) : Prop :=
  (limits.minFocus <= focusMinutes h <= limits.maxFocus) /\
  (limits.minBreak <= breakMinutes h <= limits.maxBreak) /\
  (limits.minFocus <= mount_focusMinutes h <= limits.maxFocus) /\
  (limits.minBreak <= mount_breakMinutes h <= limits.maxBreak).

(** [0 <= remainingMs <= totalMs(mode)] *)
Definition within_total (h : hook) : Prop :=
  0 <= remainingMs h <= totalMs h.

(** The durations captured by the closure of [tick] are the current ones. *)
Definition durations_current (h : hook) : Prop :=
  mount_focusMinutes h = focusMinutes h /\
  mount_breakMinutes h = breakMinutes h.

(** The persisted remaining time, when there is one, lies within the total
    of the hook built from the record, and the persisted [endAt], when there
    is one, is at most that total away. *)
Definition record_in_range (date_now : Q) (persisted : option obj) (h : hook)
  : Prop :=
  (forall s, prop persisted "remainingMs" = VNum (Fin s) ->
             0 <= s <= totalMs h) /\
  (forall e, prop persisted "endAt" = VNum (Fin e) ->
             e - date_now <= totalMs h).

(** The steps that keep the bound: [setDurations] on a timer that is not
    running; a frame whose clock reading is not before the previous one and
    that either completes no session or runs with the current durations in
    its closure; every other step. *)
Definition keeps_bound (a : action) (h : hook) : Prop :=
  match a with
  | SetDurations _ _ => isRunning h = false
  | Frame now perf =>
      (forall p, lastPerf h = Some p -> p <= now) /\
      ((frame now perf h).2 = [] \/ durations_current h)
  | _ => True
  end.

(** Every step of a run is one of those. *)
Fixpoint run_keeps_bound (acts : list action) (h : hook) : Prop :=
  match acts with
  | [] => True
  | a :: rest => keeps_bound a h /\ run_keeps_bound rest (step a h).1
  end.

(** What happens without the user: animation frames and visibility
    changes. *)
Definition passive (a : action) : bool :=
  match a with
  | Frame _ _ | Visibility _ => true
  | _ => false
  end.

(** [h'] is [h] up to the time stamp of the last tick. *)
Definition same_clock_face (h h' : hook) : Prop :=
  exists lp, h' = set_lastPerf lp h.

(** The record that [loadState() || {}] yields. *)
Definition current_of (st : storage) : obj :=
  match loadState st with
  | Normal (Some o) => o
  | _ => ∅
  end.

(** The keys written by the audio hook and those written by the timer. *)
Definition audio_keys : list string := ["soundMuted"; "volume"; "ambientOn"].

Definition timer_keys : list string :=
  ["focusMinutes"; "breakMinutes"; "isRunning"; "mode"; "remainingMs";
   "endAt"; "sessionCount"; "species"; "savedAt"].

(** ** Concrete hooks, records and stores *)

(** The hook of a first visit: nothing stored, species "sprout". *)
Definition fresh : hook :=
  Hook 25 5 "focus" false 1500000 0 (Some "sprout")
       false false None "focus" 25 5.

(** A store that holds only a volume preference. *)
Definition prefs_store : storage :=
  Store (Some (Serialized (Some {["volume" := JNum (3 # 10)]}))) false false.

(** A record saved while running with 20 s left and the given predicted
    end. *)
Definition running_record (endAt : Q) : obj :=
  <["isRunning" := JBool true]>
  (<["endAt" := JNum endAt]>
  (<["remainingMs" := JNum 20000]> ∅)).

(** A record saved 50 s before the predicted end, with 20 s stored. *)
Definition far_record : obj :=
  <["isRunning" := JBool true]>
  (<["endAt" := JNum 50000]>
  (<["remainingMs" := JNum 20000]> ∅)).

(** Records with a remaining time above the 25 minutes of the default
    interval, with a negative remaining time, and with an [endAt] 150
    minutes away. *)
Definition oversized_record : obj := {["remainingMs" := JNum 9000000]}.

Definition overdrawn_record : obj := {["remainingMs" := JNum (-1)]}.

Definition late_record : obj :=
  <["isRunning" := JBool true]> (<["endAt" := JNum 9000000]> ∅).

(** A record saved during a break; only its mode matters here. *)
Definition break_record : obj := {["mode" := JStr "break"]}.

(** The hook built from it. *)
Definition mounted_in_break : hook :=
  Hook 25 5 "break" false 300000 0 (Some "sprout")
       false false None "break" 25 5.

(** The state one break later: the timer was started and the break ran
    out, so a focus interval is running. *)
Definition focus_after_break : hook :=
  (run [Start 0; Frame 300000 300000] mounted_in_break).1.

(** The state of a first visit after one completed focus interval: the
    break is running. *)
Definition break_after_focus : hook :=
  (run [Start 0; Frame 1500000 1500000] fresh).1.

(** ** Predicates on runs of the tick loop *)

(** The frame request and the [ticking] flag agree, and the loop runs only
    while the hook reports a running timer. *)
Definition loop_ok (h : hook) : Prop :=
  rafId h = ticking h /\ (ticking h = true -> isRunning h = true).

(** The number of "focus" notifications among the events of a run. *)
Definition focus_events (events : list string) : Q :=
  inject_Z (Z.of_nat (length (filter (fun e => e = "focus") events))).

(** The instants [ts] follow [p] and each other without going back. *)
Fixpoint ascending (p : Q) (ts : list (Q * Q)) : Prop :=
  match ts with
  | [] => True
  | (t, _) :: rest => p <= t /\ ascending t rest
  end.

(** The last instant of [ts], or [p] when there is none. *)
Fixpoint last_instant (p : Q) (ts : list (Q * Q)) : Q :=
  match ts with
  | [] => p
  | (t, _) :: rest => last_instant t rest
  end.

(** One animation frame per instant; the second component is the clock
    reading that [handleSessionComplete] would make. *)
Definition frames (ts : list (Q * Q)) : list action :=
  map (fun tp => Frame tp.1 tp.2) ts.

(** The kind that [handleSessionComplete] announces when its closure holds
    the mode [m], and the mode it switches to. *)
Definition announced_kind (m : string) : string :=
  if String.eqb m "focus" then "focus" else "break".

Definition mode_after (m : string) : string :=
  if String.eqb m "focus" then "break" else "focus".

(** * Properties *)

(** ** Numbers *)

Section Numbers.

Lemma Qmax_cases (x y : Q) :
  (x < y /\ Qmax x y == y) \/ (y <= x /\ Qmax x y == x).
Proof. apply Q.max_spec. Qed.

Lemma Qmin_cases (x y : Q) :
  (x < y /\ Qmin x y == x) \/ (y <= x /\ Qmin x y == y).
Proof. apply Q.min_spec. Qed.

Lemma Qltb_lt (x y : Q) : Qltb x y = true <-> x < y.
Proof.
  unfold Qltb. rewrite negb_true_iff.
  split; intros H.
  - apply Qnot_le_lt. intros Hle. apply Qle_bool_iff in Hle. congruence.
  - destruct (Qle_bool y x) eqn:E; [|reflexivity].
    apply Qle_bool_iff in E. lra.
Qed.

Lemma Qltb_ge (x y : Q) : Qltb x y = false <-> y <= x.
Proof.
  unfold Qltb. rewrite negb_false_iff. apply Qle_bool_iff.
Qed.

Lemma Math_round_nonneg (x : Q) : 0 <= x -> 0 <= Math_round x.
Proof.
  intros Hx. unfold Math_round.
  change 0 with (inject_Z 0). rewrite <- Zle_Qle.
  rewrite <- (Qfloor_Z 0). apply Qfloor_resp_le.
  change (inject_Z 0) with 0. lra.
Qed.

Lemma minutesToMs_nonneg (m : Q) : 0 <= m -> 0 <= minutesToMs m.
Proof.
  intros Hm. unfold minutesToMs. apply Math_round_nonneg. nra.
Qed.

Lemma clamp_bounds (n : value) (lo hi : Q) :
  lo <= hi -> lo <= clamp n lo hi <= hi.
Proof.
  intros Hle. unfold clamp.
  set (x := match n with VNum (Fin q) => q | _ => lo end).
  destruct (Qmin_cases hi x) as [[? E1]|[? E1]];
    destruct (Qmax_cases lo (Qmin hi x)) as [[? E2]|[? E2]]; lra.
Qed.

End Numbers.

(** ** Configuration *)

Lemma clamp_not_finite (n : value) (lo hi : Q) :
  Number_isFinite n = false -> clamp n lo hi = Qmax lo (Qmin hi lo).
Proof.
  unfold clamp. destruct n as [| | |[]|]; simpl; intros; congruence.
Qed.

(** C5. Whatever the two arguments are (numbers out of range, NaN, an
    infinity, or a value that is no number), [setDurations] leaves a
    configuration with [focusMinutes] in [5, 120] and [breakMinutes] in
    [1, 60]; an argument that is not a finite number yields the lower bound
    of its range, 5 for focus and 1 for break. *)
Theorem setDurations_clamps (focusM breakM : value) (h : hook) :
  let h' := setDurations focusM breakM h in
  5 <= focusMinutes h' <= 120 /\
  1 <= breakMinutes h' <= 60 /\
  (Number_isFinite focusM = false -> focusMinutes h' = 5) /\
  (Number_isFinite breakM = false -> breakMinutes h' = 1).
Proof.
  cbn zeta. unfold setDurations; cbn [focusMinutes breakMinutes setRemainingMs
    setBreakMinutes setFocusMinutes].
  repeat split.
  1,2: apply (clamp_bounds focusM limits.minFocus limits.maxFocus);
       unfold limits.minFocus, limits.maxFocus; lra.
  1,2: apply (clamp_bounds breakM limits.minBreak limits.maxBreak);
       unfold limits.minBreak, limits.maxBreak; lra.
  - intros Hn. rewrite (clamp_not_finite _ _ _ Hn). reflexivity.
  - intros Hn. rewrite (clamp_not_finite _ _ _ Hn). reflexivity.
Qed.

Lemma setDurations_clamps_witness :
  focusMinutes (setDurations (VNum NaN) (VNum PosInf) fresh) = 5 /\
  breakMinutes (setDurations (VNum NaN) (VNum PosInf) fresh) = 1.
Proof.
  destruct (setDurations_clamps (VNum NaN) (VNum PosInf) fresh)
    as (_ & _ & Hf & Hb).
  split; [apply Hf | apply Hb]; reflexivity.
Defined.

(** C6. [setDurations] stores the two clamped durations; when the timer is
    not running it sets [remainingMs] to the new total of the current mode,
    when it is running it leaves [remainingMs] as it is; [mode],
    [sessionCount], [species] and [isRunning] are unchanged. *)
Theorem setDurations_frame (focusM breakM : value) (h : hook) :
  let h' := setDurations focusM breakM h in
  focusMinutes h' = clamp focusM limits.minFocus limits.maxFocus /\
  breakMinutes h' = clamp breakM limits.minBreak limits.maxBreak /\
  (isRunning h = false -> remainingMs h' = totalMs h') /\
  (isRunning h = true -> remainingMs h' = remainingMs h) /\
  mode h' = mode h /\
  sessionCount h' = sessionCount h /\
  species h' = species h /\
  isRunning h' = isRunning h.
Proof.
  cbn zeta. unfold setDurations, totalMs. cbn.
  repeat split; intros ->; reflexivity.
Qed.

Lemma setDurations_frame_witness :
  remainingMs (setDurations (VNum (Fin 50)) (VNum (Fin 10)) fresh) = 3000000 /\
  remainingMs (setDurations (VNum (Fin 50)) (VNum (Fin 10))
                 (start 0 fresh)) = 1500000.
Proof.
  split.
  - destruct (setDurations_frame (VNum (Fin 50)) (VNum (Fin 10)) fresh)
      as (_ & _ & H & _).
    rewrite H; reflexivity.
  - destruct (setDurations_frame (VNum (Fin 50)) (VNum (Fin 10))
                (start 0 fresh)) as (_ & _ & _ & H & _).
    rewrite H; reflexivity.
Defined.

(** ** The durable store *)

Section Store.

Implicit Types (st : storage) (patch cur : obj).

Lemma loadState_returns st : exists r, loadState st = Normal r.
Proof.
  unfold loadState, getItem.
  destruct (read_denied st); cbn; [eauto|].
  destruct (item st) as [[d|s]|]; cbn; eauto.
  destruct (String.eqb s ""); cbn; eauto.
Qed.

Lemma loadState_denied st : read_denied st = true -> loadState st = Normal None.
Proof. intros H. unfold loadState, getItem. rewrite H. reflexivity. Qed.

Lemma loadState_missing st : item st = None -> loadState st = Normal None.
Proof.
  intros H. unfold loadState, getItem. rewrite H.
  destruct (read_denied st); reflexivity.
Qed.

Lemma loadState_unparsable st s :
  item st = Some (Unparsable s) -> loadState st = Normal None.
Proof.
  intros H. unfold loadState, getItem. rewrite H.
  destruct (read_denied st); cbn; [reflexivity|].
  destruct (String.eqb s ""); reflexivity.
Qed.

Lemma loadState_serialized st d :
  read_denied st = false -> item st = Some (Serialized d) ->
  loadState st = Normal d.
Proof.
  intros Hr H. unfold loadState, getItem. rewrite Hr, H. reflexivity.
Qed.

Lemma saveState_returns patch st : exists st', saveState patch st = Normal st'.
Proof.
  unfold saveState. destruct (loadState_returns st) as [r ->]. cbn.
  unfold setItem. destruct (write_denied st); cbn; eauto.
Qed.

Lemma saveState_write_denied patch st :
  write_denied st = true -> saveState patch st = Normal st.
Proof.
  intros H. unfold saveState. destruct (loadState_returns st) as [r ->]. cbn.
  unfold setItem. rewrite H. reflexivity.
Qed.

(** A write that the browser accepts stores the merge of what [loadState]
    returned and the patch. *)
Lemma saveState_stores patch st :
  write_denied st = false ->
  saveState patch st =
    Normal (Store (Some (Serialized (Some (spread (current_of st) patch))))
                  (read_denied st) false).
Proof.
  intros H. unfold saveState, current_of.
  destruct (loadState_returns st) as [r ->]. cbn.
  unfold setItem. rewrite H. cbn. destruct r; reflexivity.
Qed.

Lemma lookup_spread cur patch (k : string) :
  spread cur patch !! k =
    match patch !! k with
    | Some v => Some v
    | None => cur !! k
    end.
Proof.
  unfold spread. destruct (patch !! k) as [v|] eqn:E.
  - apply lookup_union_Some_l. exact E.
  - apply lookup_union_r. exact E.
Qed.

End Store.

(** When nothing is stored the hook starts from the defaults. *)
Lemma usePomodoro_defaults (date_now rnd perf : Q) :
  usePomodoro date_now rnd perf None =
    Some (Hook 25 5 "focus" false 1500000 0 (random_species rnd)
               false false None "focus" 25 5).
Proof. reflexivity. Qed.

(** C8. [loadState] never throws, and returns [null] when no record is
    stored, when the stored string does not parse and when the storage
    cannot be read; the hook built from [null] has the defaults (25 and 5
    minutes, mode focus, zero sessions).  [saveState] never throws, and a
    refused write leaves the store as it was. *)
Theorem storage_errors_are_swallowed
    (st : storage) (patch : obj) (date_now rnd perf : Q) :
  (exists r, loadState st = Normal r) /\
  (item st = None \/ (exists s, item st = Some (Unparsable s)) \/
   read_denied st = true -> loadState st = Normal None) /\
  (exists h, usePomodoro date_now rnd perf None = Some h /\
             focusMinutes h = 25 /\ breakMinutes h = 5 /\
             mode h = "focus" /\ sessionCount h = 0 /\
             isRunning h = false /\ remainingMs h = minutesToMs 25) /\
  (exists st', saveState patch st = Normal st') /\
  (write_denied st = true -> saveState patch st = Normal st).
Proof.
  split; [apply loadState_returns|].
  split.
  { intros [H|[[s H]|H]].
    - by apply loadState_missing.
    - by eapply loadState_unparsable.
    - by apply loadState_denied. }
  split.
  { eexists. rewrite usePomodoro_defaults. repeat split. }
  split; [apply saveState_returns | apply saveState_write_denied].
Qed.

Lemma storage_errors_are_swallowed_witness :
  loadState (Store (Some (Unparsable "{oops")) false true) = Normal None /\
  saveState ∅ (Store (Some (Unparsable "{oops")) false true) =
    Normal (Store (Some (Unparsable "{oops")) false true).
Proof.
  destruct (storage_errors_are_swallowed
              (Store (Some (Unparsable "{oops")) false true) ∅ 0 0 0)
    as (_ & Hload & _ & _ & Hsave).
  split.
  - apply Hload. right; left. eexists; reflexivity.
  - apply Hsave. reflexivity.
Defined.

(** ** Merging saves *)

Section Merge.

Implicit Types (st : storage) (patch cur : obj) (k : string).

Lemma loadState_after_save st (o : obj) :
  read_denied st = false ->
  loadState (Store (Some (Serialized (Some o))) (read_denied st) false)
    = Normal (Some o).
Proof. intros H. apply loadState_serialized; cbn; [exact H|reflexivity]. Qed.

(** [JSON.stringify] writes a JSON value as it is. *)
Lemma stringify_of_json (j : json) : stringify_property (of_json j) = Some j.
Proof. by destruct j. Qed.

(** A value that [JSON.stringify] writes as it is comes from a JSON value;
    the others are [undefined] and the numbers that are not finite. *)
Lemma stringify_property_cases (v : value) :
  (exists j, v = of_json j) \/ v = VUndefined \/
  (exists n, v = VNum n /\ forall q, n <> Fin q).
Proof.
  destruct v as [| |b|[q| | |]|s].
  - right; left; reflexivity.
  - left; by exists JNull.
  - left; by exists (JBool b).
  - left; by exists (JNum q).
  - right; right; by exists PosInf.
  - right; right; by exists NegInf.
  - right; right; by exists NaN.
  - left; by exists (JStr s).
Qed.

Lemma saveState_object_stores (patch : js_object) st :
  write_denied st = false ->
  saveState_object patch st =
    Normal (Store (Some (JSON_stringify_object
                           (patch ∪ (of_json <$> current_of st))))
                  (read_denied st) false).
Proof.
  intros H. unfold saveState_object, current_of.
  destruct (loadState_returns st) as [r ->]. cbn.
  unfold setItem. rewrite H. cbn. destruct r; reflexivity.
Qed.

(** A key of the written document: what [JSON.stringify] makes of the
    value of the patch, or else the value read. *)
Lemma lookup_stringify_spread (patch : js_object) cur k :
  omap stringify_property (patch ∪ (of_json <$> cur)) !! k =
    match patch !! k with
    | Some v => stringify_property v
    | None => cur !! k
    end.
Proof.
  rewrite lookup_omap. destruct (patch !! k) as [v|] eqn:E.
  - by rewrite (lookup_union_Some_l _ _ _ _ E).
  - rewrite (lookup_union_r _ _ _ E), lookup_fmap.
    destruct (cur !! k) as [j|]; cbn; [apply stringify_of_json|reflexivity].
Qed.

(** On a patch of JSON values, [saveState] is [saveState_object]. *)
Lemma saveState_object_of_json patch st :
  saveState_object (of_json <$> patch) st = saveState patch st.
Proof.
  unfold saveState_object, saveState.
  destruct (loadState_returns st) as [r ->]. cbn.
  replace (JSON_stringify_object
             ((of_json <$> patch) ∪ (of_json <$> default ∅ r)))
    with (JSON_stringify (spread (default ∅ r) patch)); [reflexivity|].
  unfold JSON_stringify_object, JSON_stringify. do 2 f_equal.
  apply map_eq. intros k.
  rewrite lookup_stringify_spread, lookup_spread, lookup_fmap.
  destruct (patch !! k) as [j|]; cbn; [|reflexivity].
  by rewrite stringify_of_json.
Qed.

(** The preference effect of useAudio.js, as modelled by [Audio.persist],
    is [saveState] applied to the object of the effect. *)
Lemma audio_persist_object (s : Audio.state) st :
  Audio.persist s st =
    (current ← loadState st; saveState_object (audio_object current s) st).
Proof.
  unfold Audio.persist.
  destruct (loadState_returns st) as [r Er]. rewrite Er.
  unfold mbind, outcome_bind.
  unfold saveState_object, saveState. rewrite Er. cbn.
  replace (JSON_stringify_object
             (audio_object r s ∪ (of_json <$> default ∅ r)))
    with (JSON_stringify
            (spread (default ∅ r)
               (spread (default ∅ r)
                  (<["soundMuted" := JBool (Audio.isMuted s)]>
                   (<["volume" := Audio.number_json (Audio.volume s)]>
                    (<["ambientOn" := JBool (Audio.isAmbientOn s)]> ∅))))));
    [reflexivity|].
  unfold JSON_stringify_object, JSON_stringify. do 2 f_equal.
  apply map_eq. intros k.
  rewrite lookup_stringify_spread, !lookup_spread. unfold audio_object.
  destruct (decide (k = "soundMuted")) as [->|H1].
  { by rewrite !lookup_insert_eq. }
  rewrite !(lookup_insert_ne _ "soundMuted" k) by done.
  destruct (decide (k = "volume")) as [->|H2].
  { rewrite !lookup_insert_eq. by destruct (Audio.volume s). }
  rewrite !(lookup_insert_ne _ "volume" k) by done.
  destruct (decide (k = "ambientOn")) as [->|H3].
  { by rewrite !lookup_insert_eq. }
  rewrite !(lookup_insert_ne _ "ambientOn" k) by done.
  rewrite lookup_fmap, lookup_empty.
  destruct (default ∅ r !! k) as [j|]; cbn; [|reflexivity].
  by rewrite stringify_of_json.
Qed.

(** With a species, which [pickSpecies] always gives, the persistence
    effect as modelled by [persist] is [saveState] applied to the object of
    the effect. *)
Lemma persist_object now_endAt now_savedAt h st :
  species h <> None ->
  saveState_object (state_object now_endAt now_savedAt h) st
    = persist now_endAt now_savedAt h st.
Proof.
  intros Hsp. unfold persist. rewrite <- saveState_object_of_json.
  f_equal. unfold state_object, state_patch.
  destruct (species h) as [sp|]; [|done]. cbn [with_species].
  rewrite !fmap_insert, fmap_empty. cbn [of_json].
  by destruct (isRunning h).
Qed.

(** The object of the timer has none of the audio keys. *)
Lemma state_object_audio_keys now_endAt now_savedAt h k :
  k ∈ audio_keys -> state_object now_endAt now_savedAt h !! k = None.
Proof.
  unfold audio_keys. rewrite !elem_of_cons, elem_of_nil.
  intros [->|[->|[->|[]]]]; unfold state_object;
    by rewrite !lookup_insert_ne by done.
Qed.

(** C10, as stated, fails.  The volume of the audio hook is NaN after
    [setVolume(NaN)]; the preference effect then hands [saveState] an
    object whose key "volume" holds NaN, and the record stored holds
    [null] under that key, not the value of the patch. *)
Lemma saveState_can_store_another_value :
  let s := Audio.setVolume NaN
             (Audio.State false (Fin (6 # 10)) false false false) in
  let patch := audio_object (Some {["volume" := JNum (3 # 10)]}) s in
  patch !! "volume" = Some (VNum NaN) /\
  exists st' next,
    saveState_object patch prefs_store = Normal st' /\
    Audio.persist s prefs_store = Normal st' /\
    loadState st' = Normal (Some next) /\
    next !! "volume" = Some JNull /\
    of_json <$> next !! "volume" <> Some (VNum NaN).
Proof.
  cbn zeta. split; [reflexivity|].
  do 2 eexists.
  split; [vm_compute; reflexivity|].
  split; [vm_compute; reflexivity|].
  split; [vm_compute; reflexivity|].
  split; [reflexivity|].
  intros H. vm_compute in H. discriminate H.
Qed.

(** C10, amended.  On a store that accepts reads and writes,
    [saveState(patch)] stores a record in which a key of the patch holds
    the value of the patch when that is a string, a boolean, [null] or a
    finite number, holds [null] when it is a number that is not finite,
    and is absent when it is [undefined]; every other key has the value it
    had before.  In particular the save of the timer keeps the three audio
    preferences, and the save of the audio preferences keeps the nine
    timer fields and stores the mute state, the ambience and the volume,
    the latter as [null] when it is not finite. *)
Theorem saveState_merges (st : storage) (patch : js_object) :
  read_denied st = false ->
  write_denied st = false ->
  (exists st' next,
     saveState_object patch st = Normal st' /\
     loadState st' = Normal (Some next) /\
     (forall k j, patch !! k = Some (of_json j) -> next !! k = Some j) /\
     (forall k n, patch !! k = Some (VNum n) -> (forall q, n <> Fin q) ->
                  next !! k = Some JNull) /\
     (forall k, patch !! k = Some VUndefined -> next !! k = None) /\
     (forall k, patch !! k = None -> next !! k = current_of st !! k)) /\
  (forall now_endAt now_savedAt h, exists st' next,
     saveState_object (state_object now_endAt now_savedAt h) st
       = Normal st' /\
     (species h <> None -> persist now_endAt now_savedAt h st = Normal st') /\
     loadState st' = Normal (Some next) /\
     forall k, k ∈ audio_keys -> next !! k = current_of st !! k) /\
  (forall s, exists st' next,
     Audio.persist s st = Normal st' /\
     loadState st' = Normal (Some next) /\
     next !! "soundMuted" = Some (JBool (Audio.isMuted s)) /\
     next !! "volume" = Some (Audio.number_json (Audio.volume s)) /\
     next !! "ambientOn" = Some (JBool (Audio.isAmbientOn s)) /\
     forall k, k ∈ timer_keys -> next !! k = current_of st !! k).
Proof.
  intros Hr Hw. repeat split.
  - do 2 eexists. split; [by apply saveState_object_stores|].
    split; [by apply loadState_after_save|].
    repeat split.
    + intros k j Hk. rewrite lookup_stringify_spread, Hk.
      apply stringify_of_json.
    + intros k n Hk Hn. rewrite lookup_stringify_spread, Hk.
      destruct n as [q| | |]; [by destruct (Hn q)|done..].
    + intros k Hk. by rewrite lookup_stringify_spread, Hk.
    + intros k Hk. by rewrite lookup_stringify_spread, Hk.
  - intros now_endAt now_savedAt h. do 2 eexists.
    split; [by apply saveState_object_stores|].
    split.
    { intros Hsp. rewrite <- persist_object by exact Hsp.
      by apply saveState_object_stores. }
    split; [by apply loadState_after_save|].
    intros k Hk. rewrite lookup_stringify_spread.
    by rewrite state_object_audio_keys.
  - intros s. unfold Audio.persist.
    assert (Hcur : exists r, loadState st = Normal r /\
                             default ∅ r = current_of st).
    { unfold current_of. destruct (loadState_returns st) as [r ->].
      exists r. by destruct r. }
    destruct Hcur as (r & E1 & E2). rewrite E1.
    unfold mbind, outcome_bind. rewrite E2.
    do 2 eexists. split; [by apply saveState_stores|].
    split; [by apply loadState_after_save|].
    rewrite !lookup_spread.
    rewrite lookup_insert_eq.
    rewrite (lookup_insert_ne _ "soundMuted" "volume") by done.
    rewrite lookup_insert_eq.
    rewrite !(lookup_insert_ne _ _ "ambientOn") by done.
    rewrite lookup_insert_eq.
    split; [reflexivity|]. split; [reflexivity|]. split; [reflexivity|].
    intros k Hk. rewrite !lookup_spread.
    unfold timer_keys in Hk. rewrite !elem_of_cons, elem_of_nil in Hk.
    decompose [or] Hk; subst; try contradiction;
      rewrite !lookup_insert_ne by done; rewrite lookup_empty;
      by destruct (current_of st !! _).
Qed.

End Merge.

Lemma saveState_merges_witness :
  exists st' next,
    saveState_object
      (<["mode" := VStr "break"]> {["volume" := VNum PosInf]})
      (Store (Some (Serialized (Some {["sessionCount" := JNum 2]})))
             false false) = Normal st' /\
    loadState st' = Normal (Some next) /\
    next !! "mode" = Some (JStr "break") /\
    next !! "volume" = Some JNull /\
    next !! "sessionCount" = Some (JNum 2).
Proof.
  destruct (saveState_merges
              (Store (Some (Serialized (Some {["sessionCount" := JNum 2]})))
                     false false)
              (<["mode" := VStr "break"]> {["volume" := VNum PosInf]})
              eq_refl eq_refl)
    as ((st' & next & H1 & H2 & Hj & Hn & _ & Hkeep) & _).
  exists st', next. split; [exact H1|]. split; [exact H2|].
  split; [apply (Hj "mode" (JStr "break")); reflexivity|].
  split; [apply (Hn "volume" PosInf); [reflexivity|discriminate]|].
  rewrite (Hkeep "sessionCount") by reflexivity. reflexivity.
Defined.

(** ** Round trip through the store *)

Section RoundTrip.

Implicit Types (st : storage) (h : hook).

Lemma state_patch_fields now_endAt now_savedAt h :
  let p := state_patch now_endAt now_savedAt h in
  p !! "focusMinutes" = Some (JNum (focusMinutes h)) /\
  p !! "breakMinutes" = Some (JNum (breakMinutes h)) /\
  p !! "isRunning" = Some (JBool (isRunning h)) /\
  p !! "mode" = Some (JStr (mode h)) /\
  p !! "remainingMs" = Some (JNum (remainingMs h)) /\
  p !! "endAt" = Some (if isRunning h then JNum (now_endAt + remainingMs h)
                       else JNull) /\
  p !! "sessionCount" = Some (JNum (sessionCount h)) /\
  p !! "species" = JStr <$> species h /\
  p !! "savedAt" = Some (JNum now_savedAt).
Proof.
  cbn zeta. unfold state_patch.
  destruct (species h) as [sp|]; cbn [with_species fmap option_fmap option_map];
    repeat split; reflexivity.
Qed.

(** C7. On a store that accepts reads and writes, the record read back by
    [loadState] after the persistence effect of a hook holds the hook's
    [focusMinutes], [breakMinutes], [mode], [species] and [sessionCount]. *)
Theorem persist_then_load (st : storage) (h : hook) (sp : string)
    (now_endAt now_savedAt : Q) :
  read_denied st = false ->
  write_denied st = false ->
  species h = Some sp ->
  exists st' o,
    persist now_endAt now_savedAt h st = Normal st' /\
    loadState st' = Normal (Some o) /\
    o !! "focusMinutes" = Some (JNum (focusMinutes h)) /\
    o !! "breakMinutes" = Some (JNum (breakMinutes h)) /\
    o !! "mode" = Some (JStr (mode h)) /\
    o !! "species" = Some (JStr sp) /\
    o !! "sessionCount" = Some (JNum (sessionCount h)).
Proof.
  intros Hr Hw Hsp. unfold persist.
  destruct (state_patch_fields now_endAt now_savedAt h)
    as (Hf & Hb & _ & Hm & _ & _ & Hc & Hs & _).
  rewrite Hsp in Hs. cbn in Hs.
  do 2 eexists. split; [by apply saveState_stores|].
  split; [by apply loadState_after_save|].
  rewrite !lookup_spread, Hf, Hb, Hm, Hc, Hs. repeat split.
Qed.

Lemma persist_then_load_witness :
  exists st' o,
    persist 1000 1000 fresh prefs_store = Normal st' /\
    loadState st' = Normal (Some o) /\
    o !! "focusMinutes" = Some (JNum 25) /\
    o !! "breakMinutes" = Some (JNum 5) /\
    o !! "mode" = Some (JStr "focus") /\
    o !! "species" = Some (JStr "sprout") /\
    o !! "sessionCount" = Some (JNum 0).
Proof.
  exact (persist_then_load prefs_store fresh "sprout" 1000 1000
           eq_refl eq_refl eq_refl).
Defined.

End RoundTrip.

(** ** Rehydration *)

Section Rehydration.

Implicit Types (persisted : option obj) (h : hook).

(** The reconciliation of the estimate with the stored value returns the
    estimate. *)
Lemma reconcile_is_estimate (est stored : Q) :
  0 <= est -> Qmin (Qmax est 0) (Qmax stored est) == est.
Proof.
  intros Hest.
  destruct (Qmax_cases est 0) as [[? E1]|[? E1]];
    destruct (Qmax_cases stored est) as [[? E2]|[? E2]];
    destruct (Qmin_cases (Qmax est 0) (Qmax stored est)) as [[? E3]|[? E3]];
    lra.
Qed.

Lemma truthy_Some (e : Q) : ~ e == 0 -> truthy (Some e) = true.
Proof.
  intros He. cbn. destruct (Qeq_bool e 0) eqn:E; [|reflexivity].
  apply Qeq_bool_iff in E. contradiction.
Qed.

Lemma initial_remainingMs_running (date_now e : Q) (stored : option Q)
    (fallback : Q) :
  ~ e == 0 ->
  initial_remainingMs date_now true (Some e) stored fallback
    == Qmax 0 (e - date_now).
Proof.
  intros He. unfold initial_remainingMs.
  rewrite truthy_Some by exact He. cbn [andb default].
  apply reconcile_is_estimate. apply Q.le_max_l.
Qed.

(** What the first render makes of a record that says "running" and has a
    usable [endAt]. *)
Lemma usePomodoro_rehydrates (date_now rnd perf e : Q) persisted h :
  prop persisted "isRunning" = VBool true ->
  prop persisted "endAt" = VNum (Fin e) ->
  ~ e == 0 ->
  usePomodoro date_now rnd perf persisted = Some h ->
  isRunning h = true /\
  remainingMs h == Qmax 0 (e - date_now) /\
  ticking h = Qltb 0 (remainingMs h) /\
  rafId h = Qltb 0 (remainingMs h).
Proof.
  intros Hrun Hend He. unfold usePomodoro. rewrite Hrun, Hend.
  cbn [nullish as_bool as_nullable_number].
  destruct (as_string _) as [mode0|]; [|discriminate].
  destruct (as_nullable_number _) as [stored|]; [|discriminate].
  destruct (as_number _) as [count0|]; [|discriminate].
  cbn [mbind option_bind]. rewrite truthy_Some by exact He.
  cbn [andb]. intros [= <-].
  match goal with
  | |- context [initial_remainingMs ?d true (Some e) ?s ?f] =>
      pose proof (initial_remainingMs_running d e s f He) as Hrem;
      set (rem := initial_remainingMs d true (Some e) s f) in *
  end.
  destruct (Qltb 0 rem) eqn:Hpos; cbn; rewrite ?Hpos; auto.
Qed.

End Rehydration.

(** C4 at its failing inputs.  The initialiser announces a fallback to the
    stored value when the drift is large, and a clamp "to [0,
    storedRemaining or est whichever closer]", but
    [Math.min(Math.max(est, 0), Math.max(stored, est))] is [est] for every
    [stored].  So whenever the persisted record says "running" and has an
    [endAt] that is neither null nor zero, the hook adopts
    [max(0, endAt - now)] and the stored remaining time plays no part:
    when [endAt - now] is more than the stored remaining time, the hook
    adopts more than was last known.  The adopted value is the one of the
    formula of the claim when the stored value is not negative or [endAt]
    is not in the past, and it stays within the stored value only when
    [endAt - now] does. *)
Theorem rehydration_never_falls_back (date_now rnd perf e s : Q)
    (persisted : option obj) (h : hook) :
  prop persisted "isRunning" = VBool true ->
  prop persisted "endAt" = VNum (Fin e) ->
  ~ e == 0 ->
  prop persisted "remainingMs" = VNum (Fin s) ->
  usePomodoro date_now rnd perf persisted = Some h ->
  remainingMs h == Qmax 0 (e - date_now) /\
  (s < e - date_now -> s < remainingMs h) /\
  (0 <= s \/ date_now <= e ->
   remainingMs h == Qmin (Qmax (e - date_now) 0) (Qmax s (e - date_now))) /\
  (0 <= s -> e - date_now <= s -> remainingMs h <= s) /\
  (e <= date_now -> remainingMs h == 0).
Proof.
  intros Hrun Hend He Hs Hh.
  destruct (usePomodoro_rehydrates _ _ _ _ _ _ Hrun Hend He Hh)
    as (_ & Hrem & _).
  destruct (Qmax_cases 0 (e - date_now)) as [[? E0]|[? E0]];
    destruct (Qmax_cases (e - date_now) 0) as [[? E1]|[? E1]];
    destruct (Qmax_cases s (e - date_now)) as [[? E2]|[? E2]];
    destruct (Qmin_cases (Qmax (e - date_now) 0) (Qmax s (e - date_now)))
      as [[? E3]|[? E3]];
    repeat split; intros; try lra.
  all: match goal with H : _ \/ _ |- _ => destruct H end; lra.
Qed.

Lemma rehydration_never_falls_back_witness :
  exists h, usePomodoro 0 0 0 (Some far_record) = Some h /\
            remainingMs h == 50000 /\ 20000 < remainingMs h.
Proof.
  eexists. split; [vm_compute; reflexivity|].
  destruct (rehydration_never_falls_back 0 0 0 50000 20000
              (Some far_record) _ eq_refl eq_refl
              ltac:(intros H; vm_compute in H; discriminate)
              eq_refl eq_refl) as (Hrem & Hmore & _).
  split.
  - refine (Qeq_trans _ _ _ Hrem _). vm_compute. reflexivity.
  - apply Hmore. vm_compute. reflexivity.
Defined.

(** ** A rehydrated session that has already expired *)

Section Expired.

Implicit Types (h : hook) (a : action) (acts : list action).

Lemma same_clock_face_refl h : same_clock_face h h.
Proof. exists (lastPerf h). by destruct h. Qed.

Lemma same_clock_face_trans h1 h2 h3 :
  same_clock_face h1 h2 -> same_clock_face h2 h3 -> same_clock_face h1 h3.
Proof. intros [l1 ->] [l2 ->]. by exists l2. Qed.

Lemma passive_step_idle a h :
  passive a = true -> rafId h = false ->
  same_clock_face h (step a h).1 /\ (step a h).2 = [].
Proof.
  destruct a; try discriminate; intros _ Hraf; cbn.
  - unfold frame. rewrite Hraf. cbn. split; [apply same_clock_face_refl|done].
  - split; [|done]. by eexists.
Qed.

Lemma passive_run_idle acts h :
  forallb passive acts = true -> rafId h = false ->
  same_clock_face h (run acts h).1 /\ (run acts h).2 = [].
Proof.
  revert h. induction acts as [|a acts IH]; intros h Hp Hraf; cbn.
  - split; [apply same_clock_face_refl|done].
  - cbn in Hp. apply andb_true_iff in Hp as [Ha Hacts].
    destruct (passive_step_idle a h Ha Hraf) as [Hface Hev].
    destruct (step a h) as [h1 ev1] eqn:Es. cbn in Hface, Hev. subst ev1.
    assert (Hraf1 : rafId h1 = false).
    { destruct Hface as [lp ->]. exact Hraf. }
    destruct (IH h1 Hacts Hraf1) as [Hface' Hev'].
    destruct (run acts h1) as [h2 ev2]. cbn in *. subst ev2.
    split; [by eapply same_clock_face_trans|done].
Qed.

(** C9. When the persisted record says "running" and its [endAt], neither
    null nor zero, is at or before now, the hook comes up with
    [isRunning = true] and [remainingMs = 0] and does not start the tick
    loop: no frame is requested, and whatever frames and visibility changes
    follow, the hook still reports a running session with no time left and
    no session completes. *)
Theorem expired_rehydration_is_stuck (date_now rnd perf e : Q)
    (persisted : option obj) (h : hook) (acts : list action) :
  prop persisted "isRunning" = VBool true ->
  prop persisted "endAt" = VNum (Fin e) ->
  ~ e == 0 ->
  e <= date_now ->
  usePomodoro date_now rnd perf persisted = Some h ->
  forallb passive acts = true ->
  (isRunning h = true /\ remainingMs h == 0 /\
   ticking h = false /\ rafId h = false) /\
  (isRunning (run acts h).1 = true /\
   remainingMs (run acts h).1 = remainingMs h /\
   ticking (run acts h).1 = false /\
   (run acts h).2 = []).
Proof.
  intros Hrun Hend He Hpast Hh Hp.
  destruct (usePomodoro_rehydrates _ _ _ _ _ _ Hrun Hend He Hh)
    as (Hr & Hrem & Htick & Hraf).
  assert (H0 : remainingMs h == 0).
  { rewrite Hrem. apply Q.max_l. lra. }
  assert (Hoff : Qltb 0 (remainingMs h) = false).
  { apply Qltb_ge. lra. }
  rewrite Hoff in Htick, Hraf.
  split; [done|].
  destruct (passive_run_idle acts h Hp Hraf) as [[lp ->] ->].
  done.
Qed.

Lemma expired_rehydration_is_stuck_witness :
  exists h, usePomodoro 16000 0 0 (Some (running_record 6000)) = Some h /\
            isRunning h = true /\ remainingMs h == 0 /\ ticking h = false /\
            remainingMs (run [Frame 16 16; Visibility 20; Frame 32 32] h).1
              = remainingMs h.
Proof.
  eexists. split; [vm_compute; reflexivity|].
  match goal with
  | |- isRunning ?h0 = true /\ _ =>
      destruct (expired_rehydration_is_stuck 16000 0 0 6000
                  (Some (running_record 6000)) h0
                  [Frame 16 16; Visibility 20; Frame 32 32]
                  eq_refl eq_refl) as ((H1 & H2 & H3 & _) & (_ & H4 & _))
  end.
  - intros H. vm_compute in H. discriminate.
  - vm_compute. discriminate.
  - vm_compute. reflexivity.
  - reflexivity.
  - auto.
Defined.

End Expired.

(** ** The bound on the remaining time *)

Section Bound.

Implicit Types (h : hook) (a : action).

(** Opens [usePomodoro ... = Some h] in the goal: the five typed reads
    succeed, and [h] is the hook of the first render, with or without the
    tick loop started. *)
Ltac first_render persisted :=
  unfold usePomodoro;
  destruct (as_string _) as [mode0|]; [|discriminate];
  destruct (as_bool _) as [running0|]; [|discriminate];
  destruct (as_nullable_number (prop persisted "endAt"))
    as [endAt|] eqn:EendAt; [|discriminate];
  destruct (as_nullable_number (prop persisted "remainingMs"))
    as [stored|] eqn:Estored; [|discriminate];
  destruct (as_number _) as [count0|]; [|discriminate];
  cbn [mbind option_bind]; intros [= <-].

Lemma as_nullable_number_Some v q :
  as_nullable_number v = Some (Some q) -> v = VNum (Fin q).
Proof. destruct v as [| | |[]|]; cbn; congruence. Qed.

Lemma totalMs_nonneg h : config_ok h -> 0 <= totalMs h.
Proof.
  intros (Hf & Hb & _). unfold totalMs, minutes_of.
  unfold limits.minFocus, limits.minBreak in *.
  apply minutesToMs_nonneg. destruct (String.eqb _ _); lra.
Qed.

Lemma usePomodoro_config date_now rnd perf persisted h :
  usePomodoro date_now rnd perf persisted = Some h ->
  config_ok h /\ durations_current h.
Proof.
  first_render persisted.
  assert (Hf := clamp_bounds
    (nullish (prop persisted "focusMinutes") (VNum (Fin DEFAULT_FOCUS)))
    limits.minFocus limits.maxFocus
    ltac:(unfold limits.minFocus, limits.maxFocus; lra)).
  assert (Hb := clamp_bounds
    (nullish (prop persisted "breakMinutes") (VNum (Fin DEFAULT_BREAK)))
    limits.minBreak limits.maxBreak
    ltac:(unfold limits.minBreak, limits.maxBreak; lra)).
  destruct (_ && _ && _); unfold config_ok, durations_current; cbn; auto.
Qed.

Lemma initial_remainingMs_in_range (date_now : Q) (running : bool)
    (endAt stored : option Q) (fallback : Q) :
  0 <= fallback ->
  (forall s, stored = Some s -> 0 <= s <= fallback) ->
  (forall e, endAt = Some e -> e - date_now <= fallback) ->
  0 <= initial_remainingMs date_now running endAt stored fallback <= fallback.
Proof.
  intros Htot Hstored HendAt. unfold initial_remainingMs.
  destruct (running && truthy endAt) eqn:Ere.
  - destruct endAt as [e|]; [|by rewrite andb_false_r in Ere].
    specialize (HendAt e eq_refl). change (default 0 (Some e)) with e.
    pose proof (reconcile_is_estimate (Qmax 0 (e - date_now))
                  (default fallback stored) (Q.le_max_l _ _)) as E.
    destruct (Qmax_cases 0 (e - date_now)) as [[? E0]|[? E0]]; lra.
  - destruct stored as [s|]; cbn [default]; [|lra]. by apply Hstored.
Qed.

Lemma usePomodoro_within_total date_now rnd perf persisted h :
  usePomodoro date_now rnd perf persisted = Some h ->
  record_in_range date_now persisted h ->
  within_total h.
Proof.
  intros Hh [Hstored HendAt].
  pose proof (totalMs_nonneg h (proj1 (usePomodoro_config _ _ _ _ _ Hh)))
    as Htot.
  revert Hh Hstored HendAt Htot. first_render persisted.
  assert (Hrange : forall fallback,
            (forall s, prop persisted "remainingMs" = VNum (Fin s) ->
                       0 <= s <= fallback) ->
            (forall e, prop persisted "endAt" = VNum (Fin e) ->
                       e - date_now <= fallback) ->
            0 <= fallback ->
            0 <= initial_remainingMs date_now running0 endAt stored fallback
              <= fallback).
  { intros fallback Hstored HendAt Htot.
    apply initial_remainingMs_in_range; [exact Htot| |].
    - intros s ->. by apply Hstored, as_nullable_number_Some.
    - intros e ->. by apply HendAt, as_nullable_number_Some. }
  destruct (_ && _ && _); unfold within_total, totalMs; cbn; apply Hrange.
Qed.

Lemma startTicking_face perf h :
  focusMinutes (startTicking perf h) = focusMinutes h /\
  breakMinutes (startTicking perf h) = breakMinutes h /\
  mode (startTicking perf h) = mode h /\
  remainingMs (startTicking perf h) = remainingMs h /\
  mount_focusMinutes (startTicking perf h) = mount_focusMinutes h /\
  mount_breakMinutes (startTicking perf h) = mount_breakMinutes h.
Proof. unfold startTicking. by destruct (ticking h). Qed.

Lemma startTicking_keeps perf h :
  config_ok h /\ within_total h ->
  config_ok (startTicking perf h) /\ within_total (startTicking perf h).
Proof.
  unfold config_ok, within_total, totalMs.
  destruct (startTicking_face perf h) as (-> & -> & -> & -> & -> & ->).
  done.
Qed.

(** A tick with a non-negative elapsed time keeps the bound when it
    completes no session, and also when it completes one with the current
    durations in its closure. *)
Lemma tick_keeps_bound now perf h :
  config_ok h -> within_total h ->
  (forall p, lastPerf h = Some p -> p <= now) ->
  (tick now perf h).2 = [] \/ durations_current h ->
  config_ok (tick now perf h).1 /\ within_total (tick now perf h).1.
Proof.
  intros Hc Hw Hclock Hguard. unfold tick in *.
  destruct (ticking h); cbn [negb] in *; [|done].
  set (delta := now - default now (lastPerf h)) in *.
  assert (Hdelta : 0 <= delta).
  { subst delta. destruct (lastPerf h) as [p|].
    - specialize (Hclock p eq_refl).
      change (default now (Some p)) with p. lra.
    - change (default now None) with now. lra. }
  cbn [remainingMs set_lastPerf] in *.
  set (next := Qmax 0 (remainingMs h - delta)) in *.
  assert (Hnext : 0 <= next <= remainingMs h).
  { subst next. destruct Hw.
    destruct (Qmax_cases 0 (remainingMs h - delta)) as [[? E]|[? E]]; lra. }
  destruct (Qeq_bool next 0 && Qltb 0 (remainingMs h)).
  - destruct Hguard as [Hnone|[Hf Hb]]; [discriminate Hnone|].
    destruct Hc as (Hcf & Hcb & Hmf & Hmb).
    unfold handleSessionComplete.
    cbn [mount_mode mount_breakMinutes mount_focusMinutes sessionCount
         setRemainingMs set_lastPerf].
    unfold limits.minFocus, limits.minBreak in *.
    destruct (String.eqb (mount_mode h) "focus");
      unfold config_ok, within_total, totalMs, minutes_of; cbn;
      rewrite ?Hf, ?Hb; repeat split; try tauto;
      try apply Qle_refl; apply minutesToMs_nonneg; lra.
  - unfold config_ok, within_total, totalMs in *. cbn. destruct Hw. 
    split; [exact Hc|]. split; lra.
Qed.

Lemma step_keeps_bound a h :
  config_ok h -> within_total h -> keeps_bound a h ->
  config_ok (step a h).1 /\ within_total (step a h).1.
Proof.
  intros Hc Hw Hk.
  pose proof (totalMs_nonneg h Hc) as Htot.
  destruct a as [perf| |perf| |focusM breakM|now perf|perf];
    cbn [step fst].
  - (* start *)
    unfold start. apply startTicking_keeps.
    unfold config_ok, within_total, totalMs in *. cbn.
    split; [exact Hc|].
    destruct (Qle_bool (remainingMs h) 0); [split; lra | exact Hw].
  - (* pause *) done.
  - (* resume *) unfold resume. by apply startTicking_keeps.
  - (* reset *)
    unfold reset, config_ok, within_total, totalMs in *. cbn.
    split; [exact Hc|]. split; lra.
  - (* setDurations *)
    cbn in Hk. unfold setDurations. rewrite Hk. cbn [negb].
    pose proof (clamp_bounds focusM limits.minFocus limits.maxFocus
                  ltac:(unfold limits.minFocus, limits.maxFocus; lra)) as Hf.
    pose proof (clamp_bounds breakM limits.minBreak limits.maxBreak
                  ltac:(unfold limits.minBreak, limits.maxBreak; lra)) as Hb.
    destruct Hc as (_ & _ & Hmf & Hmb).
    unfold config_ok, within_total, totalMs. cbn.
    repeat split; try tauto; try apply Qle_refl.
    apply minutesToMs_nonneg. unfold minutes_of.
    unfold limits.minFocus, limits.minBreak in *.
    destruct (String.eqb _ _); lra.
  - (* frame *)
    destruct Hk as [Hclock Hguard]. unfold frame in *.
    destruct (rafId h); [|done]. by apply tick_keeps_bound.
  - (* visibility *) done.
Qed.

(** C1, amended.  The hook built from a persisted record whose remaining
    time and [endAt], when present, are within the total of the interval
    (in particular the hook built when nothing is stored) satisfies
    [0 <= remainingMs <= totalMs(mode)], and so does every state reached
    from it by [start], [pause], [resume], [reset], visibility changes,
    [setDurations] while the timer is not running, ticks that complete no
    session and ticks that complete one with the current durations in their
    closure, the clock never running backwards. *)
Theorem remainingMs_within_total (date_now rnd perf : Q)
    (persisted : option obj) (h : hook) (acts : list action) :
  usePomodoro date_now rnd perf persisted = Some h ->
  record_in_range date_now persisted h ->
  run_keeps_bound acts h ->
  within_total (run acts h).1.
Proof.
  intros Hh Hrange Hrun.
  pose proof (proj1 (usePomodoro_config _ _ _ _ _ Hh)) as Hc.
  pose proof (usePomodoro_within_total _ _ _ _ _ Hh Hrange) as Hw.
  clear Hh Hrange. revert h Hc Hw Hrun.
  induction acts as [|a acts IH]; intros h Hc Hw Hrun; [exact Hw|].
  destruct Hrun as [Hk Hrest].
  destruct (step_keeps_bound a h Hc Hw Hk) as [Hc1 Hw1].
  cbn [run]. destruct (step a h) as [h1 ev1]. cbn [fst] in *.
  specialize (IH h1 Hc1 Hw1 Hrest).
  by destruct (run acts h1).
Qed.

Lemma remainingMs_within_total_witness :
  usePomodoro 0 (1 # 2) 0 None = Some fresh /\
  within_total
    (run [Start 0; Frame 1500000 1500000; Pause;
          SetDurations (VNum (Fin 10)) (VNum NaN);
          Start 1600000; Frame 1601000 1601000; Reset] fresh).1.
Proof.
  split; [reflexivity|].
  apply (remainingMs_within_total 0 (1 # 2) 0 None fresh).
  - reflexivity.
  - split; intros ? H; discriminate H.
  - cbn [run_keeps_bound]. repeat split.
    + intros p [= <-]. vm_compute. discriminate.
    + right. split; reflexivity.
    + intros p [= <-]. vm_compute. discriminate.
    + left. reflexivity.
Defined.

End Bound.

(** *** States outside the bound *)

Lemma not_within_total (h : hook) :
  remainingMs h < 0 \/ totalMs h < remainingMs h -> ~ within_total h.
Proof. unfold within_total. intros [H|H] [H1 H2]; lra. Qed.

(** C1, as stated, fails: a persisted remaining time is adopted as it is,
    be it larger than the interval or negative; a far [endAt] is adopted as
    it is; [setDurations] on a running timer shortens the interval under
    the countdown; and a completed session leaves the remaining time of the
    durations the hook was mounted with. *)
Lemma remainingMs_can_leave_bound :
  (exists h, usePomodoro 0 0 0 (Some oversized_record) = Some h /\
             ~ within_total h) /\
  (exists h, usePomodoro 0 0 0 (Some overdrawn_record) = Some h /\
             ~ within_total h) /\
  (exists h, usePomodoro 0 0 0 (Some late_record) = Some h /\
             ~ within_total h) /\
  ~ within_total
      (run [Start 0; SetDurations (VNum (Fin 5)) (VNum (Fin 5))] fresh).1 /\
  ~ within_total
      (run [SetDurations (VNum (Fin 25)) (VNum (Fin 1)); Start 0;
            Frame 1500000 1500000] fresh).1.
Proof.
  repeat split.
  - eexists. split; [vm_compute; reflexivity|].
    apply not_within_total. right. reflexivity.
  - eexists. split; [vm_compute; reflexivity|].
    apply not_within_total. left. reflexivity.
  - eexists. split; [vm_compute; reflexivity|].
    apply not_within_total. right. reflexivity.
  - apply not_within_total. right. reflexivity.
  - apply not_within_total. right. reflexivity.
Qed.

(** ** Session transitions *)

Section Transition.

Implicit Types (h : hook).

(** What a tick does when the elapsed time uses up the remaining time: it
    runs [handleSessionComplete] once, and that closure decides by the mode
    of the first render. *)
Lemma tick_completes_session (now perf p : Q) h :
  ticking h = true ->
  lastPerf h = Some p ->
  0 < remainingMs h <= now - p ->
  let h' := (tick now perf h).1 in
  (tick now perf h).2 =
    [if String.eqb (mount_mode h) "focus" then "focus" else "break"] /\
  isRunning h' = isRunning h /\
  ticking h' = true /\
  (mount_mode h = "focus" ->
   mode h' = "break" /\ sessionCount h' = sessionCount h + 1 /\
   remainingMs h' = minutesToMs (mount_breakMinutes h)) /\
  (mount_mode h <> "focus" ->
   mode h' = "focus" /\ sessionCount h' = sessionCount h /\
   remainingMs h' = minutesToMs (mount_focusMinutes h)).
Proof.
  intros Ht Hp [Hpos Hle]. cbn zeta. unfold tick. rewrite Ht, Hp.
  cbn [negb]. change (default now (Some p)) with p.
  cbn [remainingMs set_lastPerf].
  assert (Hz : Qeq_bool (Qmax 0 (remainingMs h - (now - p))) 0 = true).
  { apply Qeq_bool_iff. apply Q.max_l. lra. }
  assert (Hlt : Qltb 0 (remainingMs h) = true) by by apply Qltb_lt.
  rewrite Hz, Hlt. cbn [andb]. unfold handleSessionComplete.
  cbn [mount_mode mount_breakMinutes mount_focusMinutes sessionCount
       setRemainingMs set_lastPerf].
  destruct (String.eqb (mount_mode h) "focus") eqn:E; cbn.
  - apply String.eqb_eq in E. repeat split; try done.
  - apply String.eqb_neq in E. repeat split; try done.
Qed.

(** With the current mode and durations in the closure, the end of a focus
    interval is the transition of the specification. *)
Lemma focus_completion_when_closure_current (now perf p : Q) h :
  mode h = "focus" ->
  mount_mode h = mode h -> durations_current h ->
  ticking h = true -> lastPerf h = Some p ->
  0 < remainingMs h <= now - p ->
  let h' := (tick now perf h).1 in
  (tick now perf h).2 = ["focus"] /\
  sessionCount h' = sessionCount h + 1 /\
  mode h' = "break" /\
  remainingMs h' = totalMs h' /\
  isRunning h' = isRunning h.
Proof.
  intros Hm Hmm [Hf Hb] Ht Hp Hrem. rewrite Hm in Hmm.
  destruct (tick_completes_session now perf p h Ht Hp Hrem)
    as (Hev & Hrun & _ & Hfocus & _).
  destruct (Hfocus Hmm) as (Hmode & Hcount & Hr).
  cbn zeta. rewrite Hev, Hmm. repeat split; try done.
  unfold totalMs. rewrite Hr, Hmode, Hb. cbn [minutes_of String.eqb].
  f_equal. unfold tick. rewrite Ht. cbn [negb].
  destruct (_ && _); unfold handleSessionComplete;
    cbn; destruct (String.eqb _ _); reflexivity.
Qed.

(** Likewise for the end of a break. *)
Lemma break_completion_when_closure_current (now perf p : Q) h :
  mode h = "break" ->
  mount_mode h = mode h -> durations_current h ->
  ticking h = true -> lastPerf h = Some p ->
  0 < remainingMs h <= now - p ->
  let h' := (tick now perf h).1 in
  (tick now perf h).2 = ["break"] /\
  sessionCount h' = sessionCount h /\
  mode h' = "focus" /\
  remainingMs h' = totalMs h' /\
  isRunning h' = isRunning h.
Proof.
  intros Hm Hmm [Hf Hb] Ht Hp Hrem. rewrite Hm in Hmm.
  destruct (tick_completes_session now perf p h Ht Hp Hrem)
    as (Hev & Hrun & _ & _ & Hbreak).
  destruct Hbreak as (Hmode & Hcount & Hr); [by rewrite Hmm|].
  cbn zeta. rewrite Hev, Hmm. repeat split; try done.
  unfold totalMs. rewrite Hr, Hmode, Hf. cbn [minutes_of String.eqb].
  f_equal. unfold tick. rewrite Ht. cbn [negb].
  destruct (_ && _); unfold handleSessionComplete;
    cbn; destruct (String.eqb _ _); reflexivity.
Qed.

End Transition.

(** *** Transitions with a stale closure *)

(** C2 at a failing input.  The hook was mounted in break mode and is now
    in a running focus interval with 1500000 ms left.  A tick 1500000 ms
    later completes the interval, but the closure of the first render takes
    it for a break: the event says "break", [sessionCount] stays 0 and the
    mode stays "focus".  A second input: on a first visit the break is set
    to 10 minutes before the start; the completed focus interval leaves the
    300000 ms of the 5 minutes the hook was mounted with, not the 600000 ms
    of the break. *)
Theorem focus_completion_with_stale_closure :
  usePomodoro 0 (1 # 2) 0 (Some break_record) = Some mounted_in_break /\
  (mode focus_after_break = "focus" /\
   isRunning focus_after_break = true /\
   ticking focus_after_break = true /\
   lastPerf focus_after_break = Some 300000 /\
   remainingMs focus_after_break = 1500000) /\
  (let '(h', events) := tick 1800000 1800000 focus_after_break in
   events = ["break"] /\
   sessionCount h' = sessionCount focus_after_break /\
   mode h' = "focus" /\
   remainingMs h' = 1500000 /\
   totalMs h' = 1500000) /\
  (let '(h', events) :=
     run [SetDurations (VNum (Fin 25)) (VNum (Fin 10)); Start 0;
          Frame 1500000 1500000] fresh in
   events = ["focus"] /\ mode h' = "break" /\ sessionCount h' = 1 /\
   remainingMs h' = 300000 /\ totalMs h' = 600000).
Proof. vm_compute. repeat split. Qed.

(** C3 at a failing input.  On a first visit the focus interval has been
    completed and the break is running with 300000 ms left.  A tick
    300000 ms later completes the break, but the closure of the first
    render takes it for a focus interval: the event says "focus",
    [sessionCount] goes from 1 to 2 and the mode stays "break". *)
Theorem break_completion_with_stale_closure :
  usePomodoro 0 (1 # 2) 0 None = Some fresh /\
  (mode break_after_focus = "break" /\
   isRunning break_after_focus = true /\
   ticking break_after_focus = true /\
   lastPerf break_after_focus = Some 1500000 /\
   remainingMs break_after_focus = 300000 /\
   sessionCount break_after_focus = 1) /\
  (let '(h', events) := tick 1800000 1800000 break_after_focus in
   events = ["focus"] /\
   sessionCount h' = 2 /\
   mode h' = "break" /\
   remainingMs h' = 300000 /\
   isRunning h' = true).
Proof. vm_compute. repeat split. Qed.

(** ** Reloading *)

Section Reload.

Implicit Types (st : storage) (h : hook).

Lemma random_species_defined (rnd : Q) :
  0 <= rnd < 1 -> exists s, random_species rnd = Some s /\ s ∈ all_species.
Proof.
  intros [Hlo Hhi]. unfold random_species.
  assert (H0 : (0 <= Qfloor (rnd * 4))%Z).
  { rewrite <- (Qfloor_Z 0). apply Qfloor_resp_le.
    change (inject_Z 0) with 0. lra. }
  assert (H4 : (Qfloor (rnd * 4) < 4)%Z).
  { apply Z.lt_nge. intros Hge. rewrite Zle_Qle in Hge.
    pose proof (Qfloor_le (rnd * 4)) as Hfl.
    change (inject_Z 4) with 4 in Hge. lra. }
  destruct (Qfloor (rnd * 4)) as [|i|i]; [| |lia].
  - eexists. split; [reflexivity|]. set_solver.
  - assert (Hi : (i = 1 \/ i = 2 \/ i = 3)%positive) by lia.
    destruct Hi as [-> | [-> | ->]]; eexists; (split; [reflexivity|]);
      unfold all_species; set_solver.
Qed.

Lemma pickSpecies_known (rnd : Q) (s : string) :
  s ∈ all_species -> pickSpecies rnd (VStr s) = Some s.
Proof. intros Hs. cbn. by rewrite bool_decide_eq_true_2. Qed.

Lemma clamp_in_range (q lo hi : Q) :
  lo <= q <= hi -> clamp (VNum (Fin q)) lo hi == q.
Proof.
  intros [Hlo Hhi]. unfold clamp.
  destruct (Qmin_cases hi q) as [[? E1]|[? E1]];
    destruct (Qmax_cases lo (Qmin hi q)) as [[? E2]|[? E2]]; lra.
Qed.

(** The hook built from the record that a hook has just saved has the same
    configuration, mode, species and session count. *)
Lemma reload_keeps_identity st h (sp : string)
    (now_endAt now_savedAt date_now rnd perf : Q) :
  read_denied st = false ->
  write_denied st = false ->
  config_ok h ->
  species h = Some sp -> sp ∈ all_species ->
  exists st' r h',
    persist now_endAt now_savedAt h st = Normal st' /\
    loadState st' = Normal r /\
    usePomodoro date_now rnd perf r = Some h' /\
    focusMinutes h' == focusMinutes h /\
    breakMinutes h' == breakMinutes h /\
    mode h' = mode h /\
    species h' = species h /\
    sessionCount h' = sessionCount h.
Proof.
  intros Hr Hw (Hf & Hb & _) Hsp Hin. unfold persist.
  destruct (state_patch_fields now_endAt now_savedAt h)
    as (Pf & Pb & Pr & Pm & Prem & Pe & Pc & Ps & _).
  rewrite Hsp in Ps. cbn in Ps.
  set (o := spread (current_of st) (state_patch now_endAt now_savedAt h)).
  assert (Hprop : forall k v,
            state_patch now_endAt now_savedAt h !! k = Some v ->
            prop (Some o) k = of_json v).
  { intros k v Hk. unfold prop, o. by rewrite lookup_spread, Hk. }
  exists (Store (Some (Serialized (Some o))) (read_denied st) false),
         (Some o).
  unfold usePomodoro.
  rewrite (Hprop _ _ Pf), (Hprop _ _ Pb), (Hprop _ _ Pr), (Hprop _ _ Pm),
          (Hprop _ _ Prem), (Hprop _ _ Pe), (Hprop _ _ Pc), (Hprop _ _ Ps).
  cbn [of_json nullish as_string as_bool as_number mbind option_bind].
  assert (He : exists endAt,
            as_nullable_number
              (of_json (if isRunning h
                        then JNum (now_endAt + remainingMs h) else JNull))
            = Some endAt).
  { destruct (isRunning h); cbn; eauto. }
  destruct He as [endAt ->].
  cbn [as_nullable_number mbind option_bind].
  rewrite (pickSpecies_known _ _ Hin).
  eexists. split; [by apply saveState_stores|].
  split; [by apply loadState_after_save|].
  split; [reflexivity|].
  destruct (_ && _ && _); unfold startTicking; cbn;
    (split; [by apply clamp_in_range|]);
    (split; [by apply clamp_in_range|]); by rewrite Hsp.
Qed.

End Reload.

(** * Further properties of the hook *)

Section Loop.

Implicit Types (h : hook) (a : action) (acts : list action).

Lemma Math_round_ge (z : Z) (x : Q) :
  inject_Z z <= x -> inject_Z z <= Math_round x.
Proof.
  intros Hx. unfold Math_round. rewrite <- Zle_Qle.
  rewrite <- (Qfloor_Z z). apply Qfloor_resp_le. lra.
Qed.

Lemma minutesToMs_at_least (m : Q) : 1 <= m -> 60000 <= minutesToMs m.
Proof.
  intros Hm. unfold minutesToMs.
  change 60000 with (inject_Z 60000). apply Math_round_ge.
  change (inject_Z 60000) with 60000. lra.
Qed.

Lemma totalMs_at_least h : config_ok h -> 60000 <= totalMs h.
Proof.
  intros (Hf & Hb & _). unfold totalMs, minutes_of.
  unfold limits.minFocus, limits.minBreak in *.
  apply minutesToMs_at_least. destruct (String.eqb _ _); lra.
Qed.

(** What a tick leaves alone, whatever it does to the countdown. *)
Lemma tick_static now perf h :
  let h' := (tick now perf h).1 in
  focusMinutes h' = focusMinutes h /\
  breakMinutes h' = breakMinutes h /\
  isRunning h' = isRunning h /\
  species h' = species h /\
  ticking h' = ticking h /\
  mount_mode h' = mount_mode h /\
  mount_focusMinutes h' = mount_focusMinutes h /\
  mount_breakMinutes h' = mount_breakMinutes h /\
  (ticking h = true -> rafId h' = true) /\
  (ticking h = false -> tick now perf h = (h, [])).
Proof.
  cbn zeta. unfold tick. destruct (ticking h) eqn:Et; cbn [negb].
  - destruct (_ && _); unfold handleSessionComplete;
      cbn [mount_mode setRemainingMs set_lastPerf];
      destruct (String.eqb (mount_mode h) "focus"); cbn;
      rewrite ?Et; repeat split; congruence.
  - cbn [fst]. repeat split; congruence.
Qed.

Lemma step_static a h :
  let h' := (step a h).1 in
  species h' = species h /\
  mount_mode h' = mount_mode h /\
  mount_focusMinutes h' = mount_focusMinutes h /\
  mount_breakMinutes h' = mount_breakMinutes h.
Proof.
  destruct a as [perf| |perf| |focusM breakM|now perf|perf]; cbn zeta;
    cbn [step fst]; unfold start, resume, startTicking, frame;
    try (destruct (ticking _); cbn; tauto); try (cbn; tauto).
  destruct (rafId h); [|cbn; tauto].
  pose proof (tick_static now perf h) as H. cbn zeta in H. tauto.
Qed.

Lemma step_config a h : config_ok h -> config_ok (step a h).1.
Proof.
  intros Hc.
  destruct (step_static a h) as (_ & _ & Emf & Emb).
  assert (Hkeep : focusMinutes (step a h).1 = focusMinutes h ->
                  breakMinutes (step a h).1 = breakMinutes h ->
                  config_ok (step a h).1).
  { intros Ef Eb. unfold config_ok in *. by rewrite Ef, Eb, Emf, Emb. }
  destruct a as [perf| |perf| |focusM breakM|now perf|perf];
    cbn [step fst] in *.
  - apply Hkeep; unfold start, startTicking; by destruct (ticking _).
  - by apply Hkeep.
  - apply Hkeep; unfold resume, startTicking; by destruct (ticking _).
  - by apply Hkeep.
  - clear Hkeep. destruct Hc as (_ & _ & Hmf & Hmb).
    unfold config_ok. cbn.
    split; [apply clamp_bounds; unfold limits.minFocus, limits.maxFocus; lra|].
    split; [apply clamp_bounds; unfold limits.minBreak, limits.maxBreak; lra|].
    done.
  - unfold frame in *. destruct (rafId h); [|by apply Hkeep].
    pose proof (tick_static now perf h) as H. cbn zeta in H.
    apply Hkeep; tauto.
  - by apply Hkeep.
Qed.

Lemma run_cons a acts h :
  run (a :: acts) h =
    ((run acts (step a h).1).1, ((step a h).2 ++ (run acts (step a h).1).2)%list).
Proof.
  cbn [run]. destruct (step a h) as [h1 ev1]. cbn [fst snd].
  by destruct (run acts h1).
Qed.

(** X1. Whatever the persisted record holds and whatever is done to the
    hook afterwards, the two durations stay within [5, 120] and [1, 60]. *)
Theorem durations_stay_in_range (date_now rnd perf : Q)
    (persisted : option obj) (h : hook) (acts : list action) :
  usePomodoro date_now rnd perf persisted = Some h ->
  5 <= focusMinutes (run acts h).1 <= 120 /\
  1 <= breakMinutes (run acts h).1 <= 60.
Proof.
  intros Hh.
  assert (Hc : config_ok (run acts h).1).
  { pose proof (proj1 (usePomodoro_config _ _ _ _ _ Hh)) as Hc. clear Hh.
    revert h Hc. induction acts as [|a acts IH]; intros h Hc; [exact Hc|].
    rewrite run_cons. cbn [fst]. apply IH. by apply step_config. }
  destruct Hc as (Hf & Hb & _). split; [exact Hf | exact Hb].
Qed.

Lemma durations_stay_in_range_witness :
  5 <= focusMinutes
         (run [SetDurations (VNum (Fin 500)) (VStr "x"); Start 0] fresh).1
    <= 120.
Proof.
  apply (durations_stay_in_range 0 (1 # 2) 0 None fresh
           [SetDurations (VNum (Fin 500)) (VStr "x"); Start 0]).
  reflexivity.
Defined.

End Loop.

Section Progress.

Implicit Types (h : hook).

Lemma progress_unfold h :
  ~ totalMs h == 0 ->
  progress h = Qmax 0 (Qmin 1 (1 - remainingMs h / totalMs h)).
Proof.
  intros Hne. unfold progress, Number_div.
  destruct (Qeq_bool (totalMs h) 0) eqn:E; [|reflexivity].
  apply Qeq_bool_iff in E. contradiction.
Qed.

Lemma progress_between h : 0 <= progress h <= 1.
Proof.
  unfold progress, Number_div.
  destruct (Qeq_bool (totalMs h) 0).
  - destruct (Qeq_bool (remainingMs h) 0); [cbn; lra|].
    destruct (Qltb 0 (remainingMs h)); cbn; lra.
  - cbn [Number_rsub].
    set (p := 1 - remainingMs h / totalMs h).
    destruct (Qmin_cases 1 p) as [[? E1]|[? E1]];
      destruct (Qmax_cases 0 (Qmin 1 p)) as [[? E2]|[? E2]]; lra.
Qed.

(** X2. The progress is always between 0 and 1.  For durations within
    their ranges it is 0 when the remaining time is the whole interval or
    more, 1 when no time remains, and [1 - remainingMs / totalMs] in
    between. *)
Theorem progress_range (h : hook) :
  0 <= progress h <= 1 /\
  (config_ok h ->
   (totalMs h <= remainingMs h -> progress h == 0) /\
   (remainingMs h <= 0 -> progress h == 1) /\
   (0 <= remainingMs h <= totalMs h ->
    progress h == 1 - remainingMs h / totalMs h)).
Proof.
  split; [apply progress_between|]. intros Hc.
  pose proof (totalMs_at_least h Hc) as Htot.
  rewrite progress_unfold by lra.
  set (x := remainingMs h / totalMs h).
  assert (Hx : x * totalMs h == remainingMs h).
  { subst x. field. lra. }
  destruct (Qmin_cases 1 (1 - x)) as [[? E1]|[? E1]];
    destruct (Qmax_cases 0 (Qmin 1 (1 - x))) as [[? E2]|[? E2]];
    repeat split; intros; try nra.
Qed.

Lemma progress_range_witness :
  progress fresh == 0 /\ progress (setRemainingMs 0 fresh) == 1.
Proof.
  split.
  - destruct (progress_range fresh) as [_ H].
    destruct H as (H & _ & _).
    + vm_compute. repeat split; intros H; discriminate H.
    + apply H. vm_compute. intros H0; discriminate H0.
  - destruct (progress_range (setRemainingMs 0 fresh)) as [_ H].
    destruct H as (_ & H & _).
    + vm_compute. repeat split; intros H; discriminate H.
    + apply H. vm_compute. intros H0; discriminate H0.
Defined.

End Progress.

Section LoopInvariant.

Implicit Types (h : hook) (a : action) (acts : list action).

Lemma usePomodoro_loop date_now rnd perf persisted h :
  usePomodoro date_now rnd perf persisted = Some h -> loop_ok h.
Proof.
  unfold usePomodoro.
  destruct (as_string _) as [mode0|]; [|discriminate].
  destruct (as_bool _) as [running0|]; [|discriminate].
  destruct (as_nullable_number (prop persisted "endAt"))
    as [endAt|]; [|discriminate].
  destruct (as_nullable_number (prop persisted "remainingMs"))
    as [stored|]; [|discriminate].
  destruct (as_number _) as [count0|]; [|discriminate].
  cbn [mbind option_bind]. intros [= <-].
  destruct (_ && _ && _); unfold loop_ok; cbn; split; congruence.
Qed.

Lemma startTicking_loop perf h :
  rafId h = ticking h -> isRunning h = true -> loop_ok (startTicking perf h).
Proof.
  intros Hr Hrun. unfold startTicking, loop_ok.
  destruct (ticking h) eqn:E; cbn; rewrite ?E; split; congruence.
Qed.

Lemma step_loop a h : loop_ok h -> loop_ok (step a h).1.
Proof.
  intros Hl. pose proof Hl as [Hr Ht].
  destruct a as [perf| |perf| |focusM breakM|now perf|perf];
    cbn [step fst].
  - unfold start. apply startTicking_loop; [exact Hr|done].
  - unfold loop_ok. cbn. split; congruence.
  - unfold resume. apply startTicking_loop; [exact Hr|done].
  - unfold loop_ok. cbn. split; congruence.
  - exact Hl.
  - unfold frame. destruct (rafId h) eqn:Eraf; [|exact Hl].
    destruct (tick_static now perf h)
      as (_ & _ & Erun & _ & Etick & _ & _ & _ & Hraf & _).
    unfold loop_ok. rewrite Etick, Erun. split; [|exact Ht].
    rewrite Hraf; congruence.
  - exact Hl.
Qed.

Lemma run_loop acts h : loop_ok h -> loop_ok (run acts h).1.
Proof.
  revert h. induction acts as [|a acts IH]; intros h Hl; [exact Hl|].
  rewrite run_cons. cbn [fst]. apply IH. by apply step_loop.
Qed.

(** X3. In every state the hook can reach, a timer that reports
    [isRunning = false] does not move: whatever animation frames and
    visibility changes follow, the remaining time, the mode and the session
    count stay as they are and no session completes. *)
Theorem idle_hook_is_frozen (date_now rnd perf : Q)
    (persisted : option obj) (h0 : hook) (acts later : list action) :
  usePomodoro date_now rnd perf persisted = Some h0 ->
  isRunning (run acts h0).1 = false ->
  forallb passive later = true ->
  let h := (run acts h0).1 in
  remainingMs (run later h).1 = remainingMs h /\
  mode (run later h).1 = mode h /\
  sessionCount (run later h).1 = sessionCount h /\
  isRunning (run later h).1 = false /\
  (run later h).2 = [].
Proof.
  intros Hh Hidle Hp. cbn zeta.
  pose proof (run_loop acts h0 (usePomodoro_loop _ _ _ _ _ Hh)) as [Hr Ht].
  assert (Hraf : rafId (run acts h0).1 = false).
  { rewrite Hr. destruct (ticking _); [|done].
    rewrite Ht in Hidle; done. }
  destruct (passive_run_idle later _ Hp Hraf) as [[lp ->] ->].
  done.
Qed.

Lemma idle_hook_is_frozen_witness :
  remainingMs
    (run [Frame 5000 5000; Visibility 6000; Frame 9000 9000]
       (run [Start 0; Frame 1000 1000; Pause] fresh).1).1 = 1499000.
Proof.
  destruct (idle_hook_is_frozen 0 (1 # 2) 0 None fresh
              [Start 0; Frame 1000 1000; Pause]
              [Frame 5000 5000; Visibility 6000; Frame 9000 9000]
              eq_refl eq_refl eq_refl) as (H & _).
  cbn zeta in H. rewrite H. reflexivity.
Defined.

End LoopInvariant.

Section Sessions.

Implicit Types (h : hook) (a : action) (acts : list action).

Lemma focus_events_app (l1 l2 : list string) :
  focus_events (l1 ++ l2)%list == focus_events l1 + focus_events l2.
Proof.
  unfold focus_events. rewrite filter_app, length_app, Nat2Z.inj_add.
  rewrite inject_Z_plus. reflexivity.
Qed.

Lemma focus_events_nil : focus_events [] = 0.
Proof. reflexivity. Qed.

Lemma focus_events_focus : focus_events ["focus"] = 1.
Proof. reflexivity. Qed.

Lemma focus_events_break : focus_events ["break"] = 0.
Proof. reflexivity. Qed.

Lemma tick_counts now perf h :
  sessionCount (tick now perf h).1
    == sessionCount h + focus_events (tick now perf h).2.
Proof.
  unfold tick. destruct (ticking h); cbn [negb];
    [|cbn [fst snd]; rewrite focus_events_nil; lra].
  destruct (_ && _).
  - unfold handleSessionComplete.
    cbn [mount_mode setRemainingMs set_lastPerf sessionCount].
    destruct (String.eqb (mount_mode h) "focus"); cbn [fst snd];
      rewrite ?focus_events_focus, ?focus_events_break; cbn; lra.
  - cbn [fst snd]. rewrite focus_events_nil. cbn. lra.
Qed.

Lemma step_counts a h :
  sessionCount (step a h).1 == sessionCount h + focus_events (step a h).2.
Proof.
  assert (Hnone : forall h', sessionCount h' = sessionCount h ->
            sessionCount h' == sessionCount h + focus_events []).
  { intros h' ->. rewrite focus_events_nil. lra. }
  destruct a as [perf| |perf| |focusM breakM|now perf|perf];
    cbn [step fst snd]; try (apply Hnone; reflexivity).
  - apply Hnone. unfold start, startTicking. by destruct (ticking _).
  - apply Hnone. unfold resume, startTicking. by destruct (ticking _).
  - unfold frame. destruct (rafId h); [|by apply Hnone].
    apply tick_counts.
Qed.

(** X4. Along every run the session count grows by exactly the number of
    "focus" notifications sent: it never decreases, and a completion that
    is announced as a break leaves it alone. *)
Theorem sessionCount_counts_focus_events (acts : list action) (h : hook) :
  sessionCount (run acts h).1
    == sessionCount h + focus_events (run acts h).2 /\
  sessionCount h <= sessionCount (run acts h).1.
Proof.
  assert (H : sessionCount (run acts h).1
                == sessionCount h + focus_events (run acts h).2).
  { revert h. induction acts as [|a acts IH]; intros h.
    - cbn [run fst snd]. rewrite focus_events_nil. lra.
    - rewrite run_cons. cbn [fst snd].
      rewrite IH, focus_events_app, (step_counts a h). lra. }
  split; [exact H|]. rewrite H.
  assert (0 <= focus_events (run acts h).2); [|lra].
  unfold focus_events. change 0 with (inject_Z 0).
  rewrite <- Zle_Qle. lia.
Qed.

End Sessions.

Section Countdown.

Implicit Types (h : hook) (ts : list (Q * Q)).

(** A tick that does not use up the remaining time subtracts the elapsed
    time and nothing else. *)
Lemma tick_plain (now perf p : Q) h :
  ticking h = true -> lastPerf h = Some p ->
  now - p < remainingMs h ->
  tick now perf h =
    (set_rafId true
       (setRemainingMs (Qmax 0 (remainingMs h - (now - p)))
          (set_lastPerf (Some now) h)), []) /\
  Qmax 0 (remainingMs h - (now - p)) == remainingMs h - (now - p).
Proof.
  intros Ht Hp Hlt. unfold tick. rewrite Ht, Hp. cbn [negb].
  change (default now (Some p)) with p. cbn [remainingMs set_lastPerf].
  assert (E : Qmax 0 (remainingMs h - (now - p))
                == remainingMs h - (now - p)).
  { apply Q.max_r. lra. }
  assert (Hz : Qeq_bool (Qmax 0 (remainingMs h - (now - p))) 0 = false).
  { destruct (Qeq_bool _ 0) eqn:Ez; [|reflexivity].
    apply Qeq_bool_iff in Ez. lra. }
  rewrite Hz. cbn [andb]. split; [reflexivity | exact E].
Qed.

(** A tick that announces nothing has subtracted the elapsed time and done
    nothing else. *)
Lemma tick_quiet (now perf p : Q) h :
  ticking h = true -> lastPerf h = Some p ->
  (tick now perf h).2 = [] ->
  tick now perf h =
    (set_rafId true
       (setRemainingMs (Qmax 0 (remainingMs h - (now - p)))
          (set_lastPerf (Some now) h)), []).
Proof.
  intros Ht Hp. unfold tick. rewrite Ht, Hp. cbn [negb].
  change (default now (Some p)) with p. cbn [remainingMs set_lastPerf].
  destruct (Qeq_bool _ 0 && Qltb 0 (remainingMs h)); [|reflexivity].
  unfold handleSessionComplete. cbn [fst snd]. discriminate.
Qed.

(** X5. Animation frames never add time.  Over any number of frames at
    times that do not go back, as long as no session completes, the
    remaining time does not increase and does not fall below 0, the tick
    stamp is the time of the last frame, and mode, session count and
    running state are untouched. *)
Theorem frames_never_add_time (p : Q) (ts : list (Q * Q)) (h : hook) :
  ticking h = true -> rafId h = true -> lastPerf h = Some p ->
  ascending p ts ->
  0 <= remainingMs h ->
  (run (frames ts) h).2 = [] ->
  let h' := (run (frames ts) h).1 in
  0 <= remainingMs h' <= remainingMs h /\
  lastPerf h' = Some (last_instant p ts) /\
  mode h' = mode h /\
  sessionCount h' = sessionCount h /\
  isRunning h' = isRunning h.
Proof.
  revert p h. induction ts as [|[t perf] ts IH];
    intros p h Ht Hraf Hp Hasc Hpos Hev.
  - cbn. repeat split; try done. lra.
  - destruct Hasc as [Hpt Hasc]. cbn [last_instant].
    unfold frames in *. cbn [map] in *. rewrite run_cons in *.
    cbn [step fst snd] in *. unfold frame in *. rewrite Hraf in *.
    apply app_eq_nil in Hev as [Hev1 Hev2].
    rewrite (tick_quiet t perf p h Ht Hp Hev1) in *. cbn [fst snd] in *.
    set (h1 := set_rafId true _) in *.
    assert (Hrem1 : 0 <= remainingMs h1 <= remainingMs h).
    { subst h1. cbn.
      destruct (Qmax_cases 0 (remainingMs h - (t - p))) as [[? E]|[? E]];
        lra. }
    destruct (IH t h1) as (Hrem & Hlp & Hmode & Hcount & Hrun); try done.
    { lra. }
    cbn zeta in *. rewrite Hlp, Hmode, Hcount, Hrun.
    subst h1. cbn in *. repeat split; try done; lra.
Qed.

Lemma frames_never_add_time_witness :
  remainingMs
    (run (frames [(16, 16); (33, 33); (50, 50); (1000, 1000)])
       (start 0 fresh)).1 <= 1500000.
Proof.
  destruct (frames_never_add_time 0
              [(16, 16); (33, 33); (50, 50); (1000, 1000)] (start 0 fresh)
              eq_refl eq_refl eq_refl) as ((_ & H) & _).
  - cbn. repeat split; intros H; discriminate H.
  - vm_compute. intros H; discriminate H.
  - vm_compute. reflexivity.
  - exact H.
Defined.

End Countdown.

Section Anchors.

Implicit Types (h : hook) (ts : list (Q * Q)).

(** X6. Time that passes while the page is hidden or the timer is paused
    is not counted: the first frame after a visibility change at [v], or
    after a pause and a resume at [v], subtracts only the time since [v],
    whatever the previous tick time was. *)
Theorem tick_counts_from_last_anchor (v now perf : Q) (h : hook) :
  now - v < remainingMs h ->
  (ticking h = true -> rafId h = true ->
   remainingMs (frame now perf (onVisibility v h)).1
     == remainingMs h - (now - v) /\
   (frame now perf (onVisibility v h)).2 = []) /\
  (remainingMs (frame now perf (resume v (pause h))).1
     == remainingMs h - (now - v) /\
   (frame now perf (resume v (pause h))).2 = []).
Proof.
  intros Hlt.
  assert (Hgen : forall h1, ticking h1 = true -> lastPerf h1 = Some v ->
            rafId h1 = true -> remainingMs h1 = remainingMs h ->
            remainingMs (frame now perf h1).1 == remainingMs h - (now - v) /\
            (frame now perf h1).2 = []).
  { intros h1 Ht Hp Hraf Hrem. rewrite <- Hrem in Hlt |- *.
    destruct (tick_plain now perf v h1 Ht Hp Hlt) as [Etick Emax].
    unfold frame. rewrite Hraf, Etick.
    cbn [fst snd remainingMs set_rafId setRemainingMs].
    split; [exact Emax|reflexivity]. }
  split.
  - intros Ht Hraf. apply Hgen; [exact Ht|reflexivity|exact Hraf|reflexivity].
  - apply Hgen; reflexivity.
Qed.

Lemma tick_counts_from_last_anchor_witness :
  remainingMs (frame 901000 901000 (resume 900000 (pause (start 0 fresh)))).1
    == 1499000.
Proof.
  destruct (tick_counts_from_last_anchor 900000 901000 901000 (start 0 fresh))
    as (_ & H & _).
  - vm_compute. reflexivity.
  - refine (Qeq_trans _ _ _ H _). vm_compute. reflexivity.
Defined.

Lemma ascending_weaken (p t : Q) ts : p <= t -> ascending t ts -> ascending p ts.
Proof.
  destruct ts as [|[t' perf] ts]; cbn; [done|].
  intros Hpt [Htt Hrest]. split; [lra|exact Hrest].
Qed.

(** X7. A timer with no time left never completes a session by ticking:
    frames leave it at zero, with the same mode and session count and with
    no notification, until [start] or [reset] refills it. *)
Theorem no_completion_at_zero (p : Q) (ts : list (Q * Q)) (h : hook) :
  lastPerf h = Some p ->
  ascending p ts ->
  remainingMs h <= 0 ->
  let h' := (run (frames ts) h).1 in
  (run (frames ts) h).2 = [] /\
  remainingMs h' <= 0 /\
  (remainingMs h == 0 -> remainingMs h' == 0) /\
  mode h' = mode h /\
  sessionCount h' = sessionCount h /\
  isRunning h' = isRunning h.
Proof.
  revert p h. induction ts as [|[t perf] ts IH]; intros p h Hp Hasc Hrem.
  - cbn. repeat split; done.
  - destruct Hasc as [Hpt Hasc]. unfold frames. cbn [map].
    rewrite run_cons. cbn [step fst snd]. fold (frames ts).
    assert (Hstep : exists h1 p1,
              frame t perf h = (h1, []) /\ lastPerf h1 = Some p1 /\
              p1 <= t /\ remainingMs h1 <= 0 /\
              (remainingMs h == 0 -> remainingMs h1 == 0) /\
              mode h1 = mode h /\ sessionCount h1 = sessionCount h /\
              isRunning h1 = isRunning h).
    { unfold frame. destruct (rafId h); [|exists h, p; by repeat split].
      unfold tick. destruct (ticking h); cbn [negb];
        [|exists h, p; by repeat split].
      rewrite Hp. change (default t (Some p)) with p.
      cbn [remainingMs set_lastPerf].
      assert (Hlt : Qltb 0 (remainingMs h) = false) by by apply Qltb_ge.
      rewrite Hlt, andb_false_r.
      assert (E : Qmax 0 (remainingMs h - (t - p)) == 0).
      { apply Q.max_l. lra. }
      eexists _, t. split; [reflexivity|]. cbn.
      repeat split; try done; lra. }
    destruct Hstep as (h1 & p1 & -> & Hp1 & Hp1t & Hrem1 & Hzero & Hm & Hc & Hr).
    cbn [fst snd].
    destruct (IH p1 h1 Hp1 (ascending_weaken p1 t ts Hp1t Hasc) Hrem1)
      as (Hev & Hle & Hz & Hm' & Hc' & Hr').
    cbn zeta. rewrite Hev, Hm', Hc', Hr'. repeat split; try done.
    intros H0. apply Hz, Hzero, H0.
Qed.

Lemma no_completion_at_zero_witness :
  remainingMs
    (run (frames [(100, 100); (200, 200)])
       (resume 0 (setRemainingMs 0 fresh))).1 == 0 /\
  (run (frames [(100, 100); (200, 200)])
     (resume 0 (setRemainingMs 0 fresh))).2 = [].
Proof.
  destruct (no_completion_at_zero 0 [(100, 100); (200, 200)]
              (resume 0 (setRemainingMs 0 fresh)) eq_refl)
    as (Hev & _ & Hz & _).
  - cbn. repeat split; intros H; discriminate H.
  - vm_compute. intros H; discriminate H.
  - split; [apply Hz; reflexivity | exact Hev].
Defined.

End Anchors.

Section ControlsOfTheHook.

Implicit Types (h : hook).

(** X8. [start] always leaves a running timer with time on the clock and
    the tick loop on: a remaining time that is positive is kept, one that
    is zero or negative is replaced by the whole interval of the current
    mode. *)
Theorem start_leaves_time_on_the_clock (perf : Q) (h : hook) :
  config_ok h -> loop_ok h ->
  let h' := start perf h in
  isRunning h' = true /\ ticking h' = true /\ rafId h' = true /\
  0 < remainingMs h' /\
  (0 < remainingMs h -> remainingMs h' = remainingMs h) /\
  (remainingMs h <= 0 -> remainingMs h' = totalMs h) /\
  mode h' = mode h /\ sessionCount h' = sessionCount h.
Proof.
  intros Hc [Hr Ht]. pose proof (totalMs_at_least h Hc) as Htot.
  cbn zeta. unfold start, startTicking. cbn [ticking setIsRunning setRemainingMs].
  destruct (Qle_bool (remainingMs h) 0) eqn:E.
  - apply Qle_bool_iff in E.
    destruct (ticking h) eqn:Et; cbn; rewrite ?Et, ?Hr;
      repeat split; try done; try lra; intros; lra.
  - assert (0 < remainingMs h).
    { apply Qnot_le_lt. intros Hle. apply Qle_bool_iff in Hle. congruence. }
    destruct (ticking h) eqn:Et; cbn; rewrite ?Et, ?Hr;
      repeat split; try done; intros; lra.
Qed.

Lemma start_leaves_time_on_the_clock_witness :
  remainingMs (start 7 (setRemainingMs 0 fresh)) = 1500000 /\
  ticking (start 7 (setRemainingMs 0 fresh)) = true.
Proof.
  destruct (start_leaves_time_on_the_clock 7 (setRemainingMs 0 fresh))
    as (_ & Ht & _ & _ & _ & Hz & _).
  - vm_compute. repeat split; intros H; discriminate H.
  - split; [reflexivity|discriminate].
  - split; [|exact Ht]. rewrite Hz; [reflexivity|].
    vm_compute. intros H; discriminate H.
Defined.

(** X9. [reset], and [setDurations] on a timer that is not running, bring
    the remaining time back to exactly the total of the current mode from
    any state, also from one outside the bound; after [reset] the timer is
    stopped and the progress is 0. *)
Theorem reset_restores_the_bound (focusM breakM : value) (h : hook) :
  config_ok h ->
  (within_total (reset h) /\ remainingMs (reset h) = totalMs (reset h) /\
   progress (reset h) == 0 /\
   isRunning (reset h) = false /\ ticking (reset h) = false /\
   rafId (reset h) = false) /\
  (isRunning h = false ->
   within_total (setDurations focusM breakM h) /\
   remainingMs (setDurations focusM breakM h)
     = totalMs (setDurations focusM breakM h)).
Proof.
  intros Hc. split.
  - assert (Hcr : config_ok (reset h)) by exact (step_config Reset h Hc).
    pose proof (totalMs_at_least _ Hcr) as Htot.
    assert (Hrem : remainingMs (reset h) = totalMs (reset h)) by reflexivity.
    split; [unfold within_total; rewrite Hrem; lra|].
    split; [exact Hrem|]. split; [|done].
    rewrite progress_unfold by lra. rewrite Hrem.
    assert (E : totalMs (reset h) / totalMs (reset h) == 1) by (field; lra).
    rewrite E. reflexivity.
  - intros Hidle.
    assert (Hcs : config_ok (setDurations focusM breakM h))
      by exact (step_config (SetDurations focusM breakM) h Hc).
    pose proof (totalMs_at_least _ Hcs) as Htot.
    assert (Hrem : remainingMs (setDurations focusM breakM h)
                   = totalMs (setDurations focusM breakM h)).
    { unfold setDurations, totalMs. rewrite Hidle. reflexivity. }
    split; [unfold within_total; rewrite Hrem; lra | exact Hrem].
Qed.

Lemma reset_restores_the_bound_witness :
  remainingMs (reset (setRemainingMs 9000000 fresh)) = 1500000 /\
  remainingMs (setDurations (VNum (Fin 30)) (VNum NaN)
                 (setRemainingMs 9000000 fresh)) = 1800000.
Proof.
  destruct (reset_restores_the_bound (VNum (Fin 30)) (VNum NaN)
              (setRemainingMs 9000000 fresh)) as ((_ & Hr & _) & Hs).
  - vm_compute. repeat split; intros H; discriminate H.
  - split; [rewrite Hr; reflexivity|].
    destruct Hs as [_ Hs]; [reflexivity|]. rewrite Hs. reflexivity.
Defined.

(** X10. Pressing a control twice is the same as pressing it once: this
    holds for [pause], [reset], [resume], [start] and [setDurations] with
    the same arguments; in particular a second [start] or [resume] does not
    move the time stamp from which the next tick counts. *)
Theorem controls_are_idempotent (perf perf' : Q) (focusM breakM : value)
    (h : hook) :
  pause (pause h) = pause h /\
  reset (reset h) = reset h /\
  resume perf' (resume perf h) = resume perf h /\
  start perf' (start perf h) = start perf h /\
  setDurations focusM breakM (setDurations focusM breakM h)
    = setDurations focusM breakM h.
Proof.
  destruct h as [f b m r rem c sp raf t lp mm mf mb].
  split; [reflexivity|]. split; [reflexivity|].
  split; [unfold resume, startTicking; cbn; destruct t; reflexivity|].
  split.
  - unfold start, startTicking, totalMs. cbn.
    destruct (Qle_bool rem 0) eqn:E; destruct t; cbn; rewrite ?E;
      try reflexivity;
      destruct (Qle_bool (minutesToMs (minutes_of m f b)) 0); reflexivity.
  - unfold setDurations. cbn. destruct r; reflexivity.
Qed.

Lemma pickSpecies_defined (rnd : Q) (v : value) :
  0 <= rnd < 1 -> exists s, pickSpecies rnd v = Some s /\ s ∈ all_species.
Proof.
  intros Hrnd. destruct (random_species_defined rnd Hrnd) as (s & Hs & Hin).
  destruct v as [| | | |s']; cbn; eauto.
  destruct (bool_decide (s' ∈ all_species)) eqn:E; eauto.
  apply bool_decide_eq_true_1 in E. eauto.
Qed.

Lemma usePomodoro_species date_now rnd perf persisted h :
  usePomodoro date_now rnd perf persisted = Some h ->
  species h = pickSpecies rnd (prop persisted "species").
Proof.
  unfold usePomodoro.
  destruct (as_string _) as [mode0|]; [|discriminate].
  destruct (as_bool _) as [running0|]; [|discriminate].
  destruct (as_nullable_number (prop persisted "endAt"))
    as [endAt|]; [|discriminate].
  destruct (as_nullable_number (prop persisted "remainingMs"))
    as [stored|]; [|discriminate].
  destruct (as_number _) as [count0|]; [|discriminate].
  cbn [mbind option_bind]. intros [= <-].
  destruct (_ && _ && _); unfold startTicking; reflexivity.
Qed.

Lemma run_species (acts : list action) h : species (run acts h).1 = species h.
Proof.
  revert h. induction acts as [|a acts IH]; intros h; [reflexivity|].
  rewrite run_cons. cbn [fst]. rewrite IH.
  by destruct (step_static a h) as (-> & _).
Qed.

(** X11. The species of the plant is one of the four known ones, whatever
    the persisted record holds under that key, and nothing that happens to
    the hook afterwards changes it; a persisted species that is one of the
    four is kept. *)
Theorem species_is_fixed (date_now rnd perf : Q) (persisted : option obj)
    (h : hook) :
  0 <= rnd < 1 ->
  usePomodoro date_now rnd perf persisted = Some h ->
  exists s, s ∈ all_species /\
    (forall acts, species (run acts h).1 = Some s) /\
    (forall s', prop persisted "species" = VStr s' -> s' ∈ all_species ->
                s = s').
Proof.
  intros Hrnd Hh. pose proof (usePomodoro_species _ _ _ _ _ Hh) as Hsp.
  destruct (pickSpecies_defined rnd (prop persisted "species") Hrnd)
    as (s & Hs & Hin).
  exists s. split; [exact Hin|]. split.
  - intros acts. by rewrite run_species, Hsp.
  - intros s' Hp Hin'. rewrite Hp, (pickSpecies_known _ _ Hin') in Hs.
    congruence.
Qed.

Lemma species_is_fixed_witness :
  exists s, s ∈ all_species /\
    species (run [Start 0; Reset] fresh).1 = Some s.
Proof.
  destruct (species_is_fixed 0 (1 # 2) 0 None fresh) as (s & Hin & Hrun & _).
  - vm_compute. split; [intros H; discriminate H | reflexivity].
  - reflexivity.
  - exists s. split; [exact Hin | apply Hrun].
Defined.

End ControlsOfTheHook.

(** * Further properties of the store *)

Section Saves.

Implicit Types (st : storage) (patch cur : obj).

Lemma current_of_after_save st (o : obj) :
  current_of (Store (Some (Serialized (Some o))) (read_denied st) false)
    = if read_denied st then ∅ else o.
Proof.
  unfold current_of, loadState, getItem. cbn. by destruct (read_denied st).
Qed.

Lemma current_of_denied st : read_denied st = true -> current_of st = ∅.
Proof. intros H. unfold current_of. by rewrite loadState_denied. Qed.

(** X12. Saving the same patch twice leaves the store exactly as saving it
    once, whether or not the store accepts reads and writes. *)
Theorem saveState_idempotent (patch : obj) (st st1 : storage) :
  saveState patch st = Normal st1 ->
  saveState patch st1 = Normal st1.
Proof.
  destruct (write_denied st) eqn:Hw.
  - rewrite (saveState_write_denied _ _ Hw). intros [= <-].
    by apply saveState_write_denied.
  - rewrite (saveState_stores _ _ Hw). intros [= <-].
    rewrite saveState_stores by reflexivity. cbn [read_denied].
    rewrite current_of_after_save. do 3 f_equal.
    destruct (read_denied st) eqn:Hr.
    + by rewrite (current_of_denied st Hr).
    + unfold spread. rewrite (assoc_L (∪)). by rewrite (idemp_L (∪)).
Qed.

Lemma saveState_idempotent_witness :
  exists st1, saveState {["mode" := JStr "break"]} prefs_store = Normal st1 /\
              saveState {["mode" := JStr "break"]} st1 = Normal st1.
Proof.
  eexists. split; [reflexivity|].
  apply (saveState_idempotent _ prefs_store). reflexivity.
Defined.

(** X13. On a store that accepts reads and writes, two saves in a row
    store what one save of the merged patch stores: the later patch wins on
    the keys they share and nothing else of the earlier one is lost. *)
Theorem saveState_composes (p1 p2 : obj) (st st1 : storage) :
  read_denied st = false ->
  write_denied st = false ->
  saveState p1 st = Normal st1 ->
  saveState p2 st1 = saveState (spread p1 p2) st.
Proof.
  intros Hr Hw. rewrite (saveState_stores _ _ Hw). intros [= <-].
  rewrite !saveState_stores by done. cbn [read_denied].
  rewrite current_of_after_save, Hr. unfold spread.
  by rewrite (assoc_L (∪)).
Qed.

Lemma saveState_composes_witness :
  exists st1 st2 o,
    saveState {["mode" := JStr "break"]} prefs_store = Normal st1 /\
    saveState {["mode" := JStr "focus"]} st1 = Normal st2 /\
    loadState st2 = Normal (Some o) /\
    o !! "mode" = Some (JStr "focus") /\
    o !! "volume" = Some (JNum (3 # 10)).
Proof.
  eexists _, _, _. split; [reflexivity|].
  split.
  - rewrite (saveState_composes {["mode" := JStr "break"]}
               {["mode" := JStr "focus"]} prefs_store _
               eq_refl eq_refl eq_refl).
    reflexivity.
  - repeat split.
Defined.

(** X14. A save over a record that cannot be used (nothing stored, a string
    that does not parse, the document [null], or a store that refuses the
    read) stores exactly the patch, when the write is accepted: what was
    there before is gone. *)
Theorem saveState_over_unusable_record (patch : obj) (st : storage) :
  write_denied st = false ->
  item st = None \/ (exists s, item st = Some (Unparsable s)) \/
  item st = Some (Serialized None) \/ read_denied st = true ->
  saveState patch st =
    Normal (Store (Some (Serialized (Some patch))) (read_denied st) false).
Proof.
  intros Hw Hbad. rewrite (saveState_stores _ _ Hw).
  assert (Hcur : current_of st = ∅).
  { unfold current_of. destruct Hbad as [H|[[s H]|[H|H]]].
    - by rewrite loadState_missing.
    - by rewrite (loadState_unparsable st s H).
    - destruct (read_denied st) eqn:Hr.
      + by rewrite loadState_denied.
      + by rewrite (loadState_serialized st None Hr H).
    - by rewrite loadState_denied. }
  rewrite Hcur. unfold spread. by rewrite (right_id_L ∅ (∪)).
Qed.

Lemma saveState_over_unusable_record_witness :
  saveState {["mode" := JStr "break"]}
            (Store (Some (Unparsable "{oops")) false false)
  = Normal (Store (Some (Serialized (Some {["mode" := JStr "break"]})))
                  false false).
Proof.
  apply (saveState_over_unusable_record _
           (Store (Some (Unparsable "{oops")) false false) eq_refl).
  right; left. eexists; reflexivity.
Defined.

End Saves.

Section ReloadClock.

Implicit Types (st : storage) (h : hook).

(** After the persistence effect, on a store that accepts reads and writes,
    [loadState] returns a record whose timer keys hold what the effect
    wrote. *)
Lemma persist_props st h (now_endAt now_savedAt : Q) :
  read_denied st = false ->
  write_denied st = false ->
  exists st' o,
    persist now_endAt now_savedAt h st = Normal st' /\
    loadState st' = Normal (Some o) /\
    prop (Some o) "focusMinutes" = VNum (Fin (focusMinutes h)) /\
    prop (Some o) "breakMinutes" = VNum (Fin (breakMinutes h)) /\
    prop (Some o) "mode" = VStr (mode h) /\
    prop (Some o) "isRunning" = VBool (isRunning h) /\
    prop (Some o) "remainingMs" = VNum (Fin (remainingMs h)) /\
    prop (Some o) "endAt" =
      (if isRunning h then VNum (Fin (now_endAt + remainingMs h))
       else VNull) /\
    prop (Some o) "sessionCount" = VNum (Fin (sessionCount h)).
Proof.
  intros Hr Hw. unfold persist.
  destruct (state_patch_fields now_endAt now_savedAt h)
    as (Pf & Pb & Pr & Pm & Prem & Pe & Pc & _).
  set (o := spread (current_of st) (state_patch now_endAt now_savedAt h)).
  assert (Hprop : forall k v,
            state_patch now_endAt now_savedAt h !! k = Some v ->
            prop (Some o) k = of_json v).
  { intros k v Hk. unfold prop, o. by rewrite lookup_spread, Hk. }
  exists (Store (Some (Serialized (Some o))) (read_denied st) false), o.
  split; [by apply saveState_stores|].
  split; [by apply loadState_after_save|].
  rewrite (Hprop _ _ Pf), (Hprop _ _ Pb), (Hprop _ _ Pr), (Hprop _ _ Pm),
          (Hprop _ _ Prem), (Hprop _ _ Pe), (Hprop _ _ Pc).
  repeat split. by destruct (isRunning h).
Qed.

(** X15. A reload honours the time that passed.  When a running timer is
    saved at [now], the effect stores [endAt = now + remainingMs]; when the
    page is loaded again at [later], the new hook is running with
    [max(0, endAt - later)] left and ticks again exactly when that is
    positive.  When a stopped timer is saved, the new hook is stopped with
    the same remaining time, however long the page was closed. *)
Theorem reload_honours_elapsed_time (st : storage) (h : hook)
    (now now_savedAt later rnd perf : Q) :
  read_denied st = false ->
  write_denied st = false ->
  exists st' r h',
    persist now now_savedAt h st = Normal st' /\
    loadState st' = Normal r /\
    usePomodoro later rnd perf r = Some h' /\
    isRunning h' = isRunning h /\
    (isRunning h = false ->
     remainingMs h' = remainingMs h /\ ticking h' = false) /\
    (isRunning h = true -> ~ now + remainingMs h == 0 ->
     remainingMs h' == Qmax 0 (now + remainingMs h - later) /\
     ticking h' = Qltb 0 (remainingMs h')).
Proof.
  intros Hr Hw.
  destruct (persist_props st h now now_savedAt Hr Hw)
    as (st' & o & Hsave & Hload & Pf & Pb & Pm & Prun & Prem & Pe & Pc).
  destruct (isRunning h) eqn:Erun.
  - assert (Hsome : exists h', usePomodoro later rnd perf (Some o) = Some h'
                               /\ isRunning h' = true).
    { unfold usePomodoro. rewrite Pm, Prun, Prem, Pe, Pc.
      cbn [nullish as_string as_bool as_number as_nullable_number
           mbind option_bind].
      eexists. split; [reflexivity|].
      match goal with
      | |- isRunning (if ?c then _ else _) = true => by destruct c
      end. }
    destruct Hsome as (h' & Hh' & Hrun').
    exists st', (Some o), h'.
    split; [exact Hsave|]. split; [exact Hload|]. split; [exact Hh'|].
    split; [exact Hrun'|]. split; [discriminate|].
    intros _ Hnz.
    destruct (usePomodoro_rehydrates later rnd perf _ (Some o) h'
                Prun Pe Hnz Hh') as (_ & Hrem' & Htick' & _).
    split; [exact Hrem' | exact Htick'].
  - exists st', (Some o). unfold usePomodoro.
    rewrite Pm, Prun, Prem, Pe, Pc.
    cbn [nullish as_string as_bool as_number as_nullable_number
         mbind option_bind].
    eexists. split; [exact Hsave|]. split; [exact Hload|].
    split; [reflexivity|]. cbn. split; [done|]. split; [done|discriminate].
Qed.

Lemma reload_honours_elapsed_time_witness :
  exists st' r h',
    persist 1000 1000 (start 0 fresh) prefs_store = Normal st' /\
    loadState st' = Normal r /\
    usePomodoro 61000 0 0 r = Some h' /\
    remainingMs h' == 1440000 /\ ticking h' = true.
Proof.
  destruct (reload_honours_elapsed_time prefs_store (start 0 fresh)
              1000 1000 61000 0 0 eq_refl eq_refl)
    as (st' & r & h' & H1 & H2 & H3 & _ & _ & H4).
  exists st', r, h'. split; [exact H1|]. split; [exact H2|].
  split; [exact H3|].
  destruct H4 as [Hrem Htick].
  - reflexivity.
  - vm_compute. intros H; discriminate H.
  - split.
    + refine (Qeq_trans _ _ _ Hrem _). vm_compute. reflexivity.
    + rewrite Htick. apply Qltb_lt. rewrite Hrem. vm_compute. reflexivity.
Defined.

End ReloadClock.

(** * Properties of what the application shows *)

Section Readout.

Lemma Qfloor_unique (z : Z) (y : Q) :
  inject_Z z <= y -> y < inject_Z (z + 1) -> Qfloor y = z.
Proof.
  intros Hlo Hhi.
  pose proof (Qfloor_le y) as H1. pose proof (Qlt_floor y) as H2.
  assert (inject_Z z < inject_Z (Qfloor y + 1)) as H3 by lra.
  assert (inject_Z (Qfloor y) < inject_Z (z + 1)) as H4 by lra.
  rewrite <- Zlt_Qlt in H3, H4. lia.
Qed.

Lemma Qfloor_div_pos (x : Q) (k : positive) :
  Qfloor (x / inject_Z (Zpos k)) = (Qfloor x / Zpos k)%Z.
Proof.
  apply Qfloor_unique.
  - pose proof (Qfloor_le x) as H.
    assert (Hk : 0 < inject_Z (Z.pos k)).
    { change 0 with (inject_Z 0). rewrite <- Zlt_Qlt. lia. }
    apply Qle_shift_div_l; [exact Hk|].
    rewrite <- inject_Z_mult.
    apply Qle_trans with (inject_Z (Qfloor x)); [|exact H].
    rewrite <- Zle_Qle.
    pose proof (Z.mul_div_le (Qfloor x) (Z.pos k) ltac:(lia)). lia.
  - pose proof (Qlt_floor x) as H.
    assert (Hk : 0 < inject_Z (Z.pos k)).
    { change 0 with (inject_Z 0). rewrite <- Zlt_Qlt. lia. }
    apply Qlt_shift_div_r; [exact Hk|].
    rewrite <- inject_Z_mult.
    apply Qlt_le_trans with (inject_Z (Qfloor x + 1)); [exact H|].
    rewrite <- Zle_Qle.
    pose proof (Z.mul_succ_div_gt (Qfloor x) (Z.pos k) ltac:(lia)). lia.
Qed.

Lemma Qfloor_minus_Z (x : Q) (z : Z) :
  Qfloor (x - inject_Z z) = (Qfloor x - z)%Z.
Proof.
  apply Qfloor_unique.
  - pose proof (Qfloor_le x).
    replace (Qfloor x - z)%Z with (Qfloor x + - z)%Z by lia.
    rewrite inject_Z_plus, inject_Z_opp. lra.
  - pose proof (Qlt_floor x) as H.
    replace (Qfloor x - z + 1)%Z with ((Qfloor x + 1) + - z)%Z by lia.
    rewrite (inject_Z_plus (Qfloor x + 1)), inject_Z_opp. lra.
Qed.

Lemma Qtrunc_nonneg (x : Q) : 0 <= x -> Qtrunc x = Qfloor x.
Proof.
  destruct x as [n d]. unfold Qle, Qtrunc, Qfloor. cbn.
  intros Hn. apply Z.quot_div_nonneg; lia.
Qed.

Lemma title_time_nonneg (rem : Q) :
  0 <= rem ->
  title_time rem =
    padStart 2 "0"%char (toString (Qfloor rem / 60000)%Z) +:+ ":" +:+
    padStart 2 "0"%char (toString ((Qfloor rem / 1000) mod 60)%Z).
Proof.
  intros Hrem. unfold title_time, Number_rem.
  assert (Hq : 0 <= rem / 60000).
  { apply Qle_shift_div_l; lra. }
  rewrite (Qtrunc_nonneg _ Hq).
  change 60000 with (inject_Z (Z.pos 60000)).
  change 1000 with (inject_Z (Z.pos 1000)).
  rewrite !Qfloor_div_pos.
  assert (E : rem - inject_Z 60000 * inject_Z (Qfloor rem / 60000)
              == rem - inject_Z (60000 * (Qfloor rem / 60000))).
  { rewrite inject_Z_mult. reflexivity. }
  rewrite (Qfloor_comp _ _ E), Qfloor_minus_Z.
  assert (EZ : ((Qfloor rem - 60000 * (Qfloor rem / 60000)) / 1000
                = (Qfloor rem / 1000) mod 60)%Z).
  { Z.to_euclidean_division_equations. lia. }
  by rewrite EZ.
Qed.

Lemma Qfloor_plus_hour (rem : Q) :
  Qfloor (rem + 3600000) = (Qfloor rem + 3600000)%Z.
Proof.
  assert (E : rem + 3600000 == rem - inject_Z (-3600000)).
  { change (inject_Z (-3600000)) with (-(3600000)). ring. }
  rewrite (Qfloor_comp _ _ E), Qfloor_minus_Z. lia.
Qed.

Lemma length_append (a x : string) :
  String.length (a +:+ x) = (String.length a + String.length x)%nat.
Proof. induction a as [|c a IH]; simpl; [reflexivity|]. by rewrite IH. Qed.

Lemma append_cancel_r (a b x : string) : a +:+ x = b +:+ x -> a = b.
Proof.
  revert b. induction a as [|c a IH]; intros [|c' b] H.
  - reflexivity.
  - apply (f_equal String.length) in H.
    rewrite !length_append in H. simpl in H. lia.
  - apply (f_equal String.length) in H.
    rewrite !length_append in H. simpl in H. lia.
  - simpl in H. injection H as -> H. f_equal. by apply IH.
Qed.

Lemma minutes_differ (m : Z) :
  (0 <= m < 60)%Z ->
  padStart 2 "0"%char (toString m) <> padStart 2 "0"%char (toString (m + 60)).
Proof.
  intros Hm.
  assert (Hn : exists n, (n < 60)%nat /\ m = Z.of_nat n).
  { exists (Z.to_nat m). lia. }
  destruct Hn as (n & Hn & ->).
  do 60 (destruct n as [|n]; [vm_compute; discriminate|]). lia.
Qed.

(** X16. The time shown in the ring and the time in the document title
    agree while less than an hour remains.  From an hour on they differ:
    the ring shows the minutes modulo 60, so that with 90 minutes left it
    reads like the title does with 30. *)
Theorem readout_wraps_at_one_hour (rem : Q) :
  0 <= rem -> rem < 3600000 ->
  time_readout rem = Some (title_time rem) /\
  time_readout (rem + 3600000) = Some (title_time rem) /\
  title_time (rem + 3600000) <> title_time rem.
Proof.
  intros H0 Hlt.
  pose proof (Qfloor_le rem) as Hfl. pose proof (Qlt_floor rem) as Hfu.
  assert (HT : (0 <= Qfloor rem < 3600000)%Z).
  { split.
    - rewrite <- (Qfloor_Z 0). by apply Qfloor_resp_le.
    - rewrite Zlt_Qlt. change (inject_Z 3600000) with 3600000. lra. }
  assert (Hdiv : ((Qfloor rem / 60000) mod 60 = Qfloor rem / 60000 /\
                  ((Qfloor rem + 3600000) / 60000) mod 60
                    = Qfloor rem / 60000 /\
                  ((Qfloor rem + 3600000) / 1000) mod 60
                    = (Qfloor rem / 1000) mod 60 /\
                  (Qfloor rem + 3600000) / 60000 = Qfloor rem / 60000 + 60 /\
                  0 <= Qfloor rem / 60000 < 60)%Z).
  { Z.to_euclidean_division_equations. lia. }
  destruct Hdiv as (E1 & E2 & E3 & E4 & Hm).
  rewrite (title_time_nonneg rem H0).
  split; [|split].
  - unfold time_readout. rewrite (Qtrunc_nonneg rem H0).
    rewrite (proj2 (Z.leb_le _ _)), (proj2 (Z.leb_le _ _)) by lia.
    cbn [andb]. by rewrite E1.
  - unfold time_readout. rewrite (Qtrunc_nonneg (rem + 3600000)) by lra.
    rewrite Qfloor_plus_hour.
    rewrite (proj2 (Z.leb_le _ _)), (proj2 (Z.leb_le _ _)) by lia.
    cbn [andb]. by rewrite E2, E3.
  - rewrite (title_time_nonneg (rem + 3600000)) by lra.
    rewrite Qfloor_plus_hour, E3, E4.
    intros H. apply append_cancel_r in H.
    by apply (minutes_differ _ Hm).
Qed.

Lemma readout_wraps_at_one_hour_witness :
  time_readout 5400000 = Some "30:00" /\ title_time 5400000 <> "30:00".
Proof.
  destruct (readout_wraps_at_one_hour 1800000) as (_ & H & Hne).
  - vm_compute. intros H; discriminate H.
  - reflexivity.
  - split; [exact H | exact Hne].
Defined.

End Readout.

Section Form.

Implicit Types (h : hook).

Lemma clamp_idempotent (v : value) (lo hi : Q) :
  lo <= hi -> clamp (VNum (Fin (clamp v lo hi))) lo hi == clamp v lo hi.
Proof. intros Hle. apply clamp_in_range. by apply clamp_bounds. Qed.

Lemma minutesToMs_compat (x y : Q) : x == y -> minutesToMs x = minutesToMs y.
Proof.
  intros E. unfold minutesToMs, Math_round. f_equal.
  apply Qfloor_comp. rewrite E. reflexivity.
Qed.

(** X17. A click on Apply in the settings form never disturbs a running
    countdown, and on a stopped timer it leaves the clamped inputs as the
    two durations and the whole interval of the current mode as the
    remaining time: the clamp of the form and the clamp of the hook compose
    to one clamp, whatever was typed. *)
Theorem apply_settings_keeps_the_bound (focus brk : value) (h : hook) :
  let h' := App_apply_settings focus brk h in
  (isRunning h = true -> h' = h) /\
  (isRunning h = false ->
   focusMinutes h' == clamp focus 5 120 /\
   breakMinutes h' == clamp brk 1 60 /\
   remainingMs h' = totalMs h' /\
   remainingMs h'
     = minutesToMs (minutes_of (mode h) (clamp focus 5 120) (clamp brk 1 60)) /\
   within_total h').
Proof.
  cbn zeta. unfold App_apply_settings, Settings_apply.
  destruct (isRunning h) eqn:Erun; (split; [done|]); [discriminate|].
  intros _.
  assert (Ef := clamp_idempotent focus 5 120 ltac:(lra)).
  assert (Eb := clamp_idempotent brk 1 60 ltac:(lra)).
  assert (Hrem : remainingMs (setDurations (VNum (Fin (clamp focus 5 120)))
                                (VNum (Fin (clamp brk 1 60))) h)
                 = totalMs (setDurations (VNum (Fin (clamp focus 5 120)))
                              (VNum (Fin (clamp brk 1 60))) h)).
  { unfold setDurations, totalMs. rewrite Erun. reflexivity. }
  split; [exact Ef|]. split; [exact Eb|]. split; [exact Hrem|].
  split.
  - unfold setDurations. rewrite Erun. cbn [negb remainingMs setRemainingMs].
    apply minutesToMs_compat. unfold minutes_of.
    destruct (String.eqb (mode h) "focus"); [exact Ef | exact Eb].
  - unfold within_total. rewrite Hrem. split; [|lra].
    unfold totalMs. apply minutesToMs_nonneg.
    pose proof (clamp_bounds (VNum (Fin (clamp focus 5 120))) 5 120
                  ltac:(lra)) as Hf.
    pose proof (clamp_bounds (VNum (Fin (clamp brk 1 60))) 1 60
                  ltac:(lra)) as Hb.
    unfold minutes_of. cbn.
    unfold limits.minFocus, limits.maxFocus, limits.minBreak,
      limits.maxBreak.
    destruct (String.eqb (mode h) "focus"); lra.
Qed.

Lemma apply_settings_keeps_the_bound_witness :
  App_apply_settings (VNum (Fin 500)) (VNum NaN) (start 0 fresh)
    = start 0 fresh /\
  remainingMs (App_apply_settings (VNum (Fin 500)) (VNum NaN) fresh)
    = 7200000.
Proof.
  split.
  - apply (proj1 (apply_settings_keeps_the_bound (VNum (Fin 500)) (VNum NaN)
                    (start 0 fresh))). reflexivity.
  - destruct (apply_settings_keeps_the_bound (VNum (Fin 500)) (VNum NaN)
                fresh) as (_ & H).
    destruct H as (_ & _ & _ & H & _); [reflexivity|].
    cbn zeta in H. rewrite H. reflexivity.
Defined.

End Form.

Section Visuals.

Implicit Types (h : hook).

(** X18. What the ring and the plant draw follows the remaining time.  For
    any progress value, also outside [0, 1], the offset of the ring stays
    between 0 and the circumference and the scale of the plant between 0.6
    and 1.2.  For a hook within its bound none of the clamps acts: with
    [p = 1 - remainingMs / totalMs] the offset is [circumference * (1 - p)]
    and the scale is [0.6 + 0.6 * p].  Of two hooks with the same interval,
    the one with more time left has the larger offset and the smaller
    scale, or the same. *)
Theorem visuals_follow_remaining_time (circumference p : Q) (h h' : hook) :
  0 <= circumference ->
  (0 <= ring_offset circumference p <= circumference /\
   6 # 10 <= plant_scale p <= 12 # 10) /\
  (config_ok h -> within_total h ->
   ring_offset circumference (progress h)
     == circumference * (1 - (1 - remainingMs h / totalMs h)) /\
   plant_scale (progress h)
     == (6 # 10) + (6 # 10) * (1 - remainingMs h / totalMs h)) /\
  (config_ok h -> totalMs h' == totalMs h ->
   remainingMs h <= remainingMs h' ->
   ring_offset circumference (progress h)
     <= ring_offset circumference (progress h') /\
   plant_scale (progress h') <= plant_scale (progress h)).
Proof.
  intros Hc. unfold ring_offset, plant_scale. split; [|split].
  - destruct (Qmax_cases 0 p) as [[? E1]|[? E1]];
      destruct (Qmin_cases 1 (Qmax 0 p)) as [[? E2]|[? E2]];
      repeat split; nra.
  - intros Hcfg Hw.
    pose proof (totalMs_at_least h Hcfg) as Htot.
    pose proof (progress_between h) as Hp.
    assert (E : progress h == 1 - remainingMs h / totalMs h).
    { rewrite progress_unfold by lra.
      set (x := remainingMs h / totalMs h).
      assert (Hx : x * totalMs h == remainingMs h) by (subst x; field; lra).
      destruct Hw as [Hw0 Hw1].
      destruct (Qmin_cases 1 (1 - x)) as [[? E1]|[? E1]];
        destruct (Qmax_cases 0 (Qmin 1 (1 - x))) as [[? E2]|[? E2]]; nra. }
    destruct (Qmax_cases 0 (progress h)) as [[? E1]|[? E1]];
      destruct (Qmin_cases 1 (Qmax 0 (progress h))) as [[? E2]|[? E2]];
      split; nra.
  - intros Hcfg Htot' Hle.
    pose proof (totalMs_at_least h Hcfg) as Htot.
    assert (Hpp : progress h' <= progress h).
    { rewrite (progress_unfold h), (progress_unfold h') by lra.
      set (x := remainingMs h / totalMs h).
      set (x' := remainingMs h' / totalMs h').
      assert (Hx : x * totalMs h == remainingMs h) by (subst x; field; lra).
      assert (Hx' : x' * totalMs h == remainingMs h').
      { subst x'. rewrite <- Htot'. field. lra. }
      assert (Hxx : x <= x') by nra.
      destruct (Qmin_cases 1 (1 - x)) as [[? E1]|[? E1]];
        destruct (Qmax_cases 0 (Qmin 1 (1 - x))) as [[? E2]|[? E2]];
        destruct (Qmin_cases 1 (1 - x')) as [[? E3]|[? E3]];
        destruct (Qmax_cases 0 (Qmin 1 (1 - x'))) as [[? E4]|[? E4]];
        lra. }
    destruct (Qmax_cases 0 (progress h)) as [[? E1]|[? E1]];
      destruct (Qmin_cases 1 (Qmax 0 (progress h))) as [[? E2]|[? E2]];
      destruct (Qmax_cases 0 (progress h')) as [[? E3]|[? E3]];
      destruct (Qmin_cases 1 (Qmax 0 (progress h'))) as [[? E4]|[? E4]];
      split; nra.
Qed.

Lemma visuals_follow_remaining_time_witness :
  ring_offset 100 (progress (setRemainingMs 750000 fresh)) == 50 /\
  plant_scale (progress (setRemainingMs 750000 fresh))
    == (6 # 10) + (6 # 10) * (1 # 2).
Proof.
  destruct (visuals_follow_remaining_time 100 0
              (setRemainingMs 750000 fresh) fresh)
    as (_ & H & _).
  - vm_compute. intros H; discriminate H.
  - destruct H as [H1 H2].
    + vm_compute. repeat split; intros H; discriminate H.
    + vm_compute. split; intros H; discriminate H.
    + split.
      * refine (Qeq_trans _ _ _ H1 _). vm_compute. reflexivity.
      * refine (Qeq_trans _ _ _ H2 _). vm_compute. reflexivity.
Defined.

End Visuals.

Section Quotes.

Lemma random_element_defined {A : Type} (rnd : Q) (l : list A) :
  0 <= rnd < 1 -> l <> [] ->
  exists x, random_element rnd l = Some x /\ x ∈ l.
Proof.
  intros [Hlo Hhi] Hne. unfold random_element.
  set (n := Z.of_nat (length l)).
  assert (Hn : (0 < n)%Z).
  { subst n. destruct l; [done|]. cbn [length]. lia. }
  assert (HnQ : 0 < inject_Z n).
  { change 0 with (inject_Z 0). by rewrite <- Zlt_Qlt. }
  assert (H0 : (0 <= Qfloor (rnd * inject_Z n))%Z).
  { rewrite <- (Qfloor_Z 0). apply Qfloor_resp_le.
    change (inject_Z 0) with 0. nra. }
  assert (H1 : (Qfloor (rnd * inject_Z n) < n)%Z).
  { apply Z.lt_nge. intros Hge. rewrite Zle_Qle in Hge.
    pose proof (Qfloor_le (rnd * inject_Z n)) as Hfl. nra. }
  destruct (l !! Z.to_nat (Qfloor (rnd * inject_Z n))) as [x|] eqn:E.
  - exists x. split; [|by eapply list_elem_of_lookup_2].
    by destruct (Qfloor (rnd * inject_Z n)).
  - apply lookup_ge_None in E. lia.
Qed.

(** X19. [randomQuote] always returns a quote, never [undefined]: one of
    the break quotes when the mode is "break" and one of the focus quotes
    for every other mode. *)
Theorem randomQuote_returns_a_quote (rnd : Q) (mode : string) :
  0 <= rnd < 1 ->
  exists q, randomQuote rnd mode = Some q /\
            (mode = "break" -> q ∈ breakQuotes) /\
            (mode <> "break" -> q ∈ focusQuotes).
Proof.
  intros Hrnd. unfold randomQuote.
  destruct (String.eqb mode "break") eqn:E.
  - apply String.eqb_eq in E.
    destruct (random_element_defined rnd breakQuotes Hrnd ltac:(done))
      as (q & Hq & Hin).
    exists q. repeat split; done.
  - apply String.eqb_neq in E.
    destruct (random_element_defined rnd focusQuotes Hrnd ltac:(done))
      as (q & Hq & Hin).
    exists q. repeat split; done.
Qed.

Lemma randomQuote_returns_a_quote_witness :
  exists q, randomQuote (99 # 100) "break" = Some q /\ q ∈ breakQuotes.
Proof.
  destruct (randomQuote_returns_a_quote (99 # 100) "break")
    as (q & Hq & Hb & _).
  - vm_compute. split; [intros H; discriminate H | reflexivity].
  - exists q. split; [exact Hq | by apply Hb].
Defined.

End Quotes.

(** * Properties of the audio preferences *)

Section AudioState.

Implicit Types (s : Audio.state) (st : storage).

(** X20. [setVolume] clamps every number but NaN into [0, 1]: a finite
    value in range is kept, one below 0 becomes 0 and one above 1 becomes
    1; [Infinity] becomes 1 and [-Infinity] becomes 0; NaN is stored as it
    is.  Mute state and ambience are not touched. *)
Theorem setVolume_clamps_all_but_NaN (v : number) (s : Audio.state) :
  let s' := Audio.setVolume v s in
  (v <> NaN ->
   exists q, Audio.volume s' = Fin q /\ 0 <= q <= 1 /\
             (forall x, v = Fin x ->
                (0 <= x <= 1 -> q == x) /\
                (x <= 0 -> q == 0) /\
                (1 <= x -> q == 1)) /\
             (v = PosInf -> q == 1) /\
             (v = NegInf -> q == 0)) /\
  (v = NaN -> Audio.volume s' = NaN) /\
  Audio.isMuted s' = Audio.isMuted s /\
  Audio.isAmbientOn s' = Audio.isAmbientOn s.
Proof.
  cbn zeta. unfold Audio.setVolume. cbn.
  split; [|split; [by intros ->|done]].
  intros Hv. destruct v as [x| | |]; [| | |done]; cbn.
  - exists (Qmax 0 (Qmin 1 x)).
    assert (Hq : 0 <= Qmax 0 (Qmin 1 x) <= 1 /\
                 (0 <= x <= 1 -> Qmax 0 (Qmin 1 x) == x) /\
                 (x <= 0 -> Qmax 0 (Qmin 1 x) == 0) /\
                 (1 <= x -> Qmax 0 (Qmin 1 x) == 1)).
    { destruct (Qmin_cases 1 x) as [[? E1]|[? E1]];
        destruct (Qmax_cases 0 (Qmin 1 x)) as [[? E2]|[? E2]];
        repeat split; intros; lra. }
    destruct Hq as (Hr & Hin & Hlo & Hhi).
    split; [reflexivity|]. split; [exact Hr|].
    split; [|split; discriminate].
    intros y [= <-]. auto.
  - exists 1. split; [reflexivity|]. split; [lra|].
    split; [discriminate|]. split; [reflexivity|discriminate].
  - exists 0. split; [reflexivity|]. split; [lra|].
    split; [discriminate|]. split; [discriminate|reflexivity].
Qed.

Lemma setVolume_clamps_all_but_NaN_witness :
  exists q, Audio.volume (Audio.setVolume PosInf
                            (Audio.State false (Fin (6 # 10)) false false false))
            = Fin q /\ q == 1.
Proof.
  destruct (setVolume_clamps_all_but_NaN PosInf
              (Audio.State false (Fin (6 # 10)) false false false))
    as (H & _).
  destruct H as (q & Hq & _ & _ & Hinf & _); [discriminate|].
  exists q. split; [exact Hq | by apply Hinf].
Defined.

Lemma audio_persist_props s st :
  read_denied st = false ->
  write_denied st = false ->
  exists st' o,
    Audio.persist s st = Normal st' /\
    loadState st' = Normal (Some o) /\
    prop (Some o) "soundMuted" = VBool (Audio.isMuted s) /\
    prop (Some o) "volume" = of_json (Audio.number_json (Audio.volume s)) /\
    prop (Some o) "ambientOn" = VBool (Audio.isAmbientOn s).
Proof.
  intros Hr Hw. unfold Audio.persist.
  assert (Hcur : exists r, loadState st = Normal r /\
                           default ∅ r = current_of st).
  { unfold current_of. destruct (loadState_returns st) as [r ->].
    exists r. by destruct r. }
  destruct Hcur as (r & E1 & E2). rewrite E1.
  unfold mbind, outcome_bind. rewrite E2.
  do 2 eexists. split; [by apply saveState_stores|].
  split; [by apply loadState_after_save|].
  unfold prop. rewrite !lookup_spread.
  rewrite lookup_insert_eq.
  rewrite (lookup_insert_ne _ "soundMuted" "volume") by done.
  rewrite lookup_insert_eq.
  rewrite !(lookup_insert_ne _ _ "ambientOn") by done.
  rewrite lookup_insert_eq. done.
Qed.

(** X21. The audio preferences survive a reload: on a store that accepts
    reads and writes, the hook built from the record that the preference
    effect saved has the same mute state and ambience, and the same volume
    when the volume is finite; a volume that is not finite is saved as
    [null] and comes back as the default 0.6. *)
Theorem audio_preferences_survive_reload (s : Audio.state) (st : storage) :
  read_denied st = false ->
  write_denied st = false ->
  exists st' r s',
    Audio.persist s st = Normal st' /\
    loadState st' = Normal r /\
    Audio.useAudio r = Some s' /\
    Audio.isMuted s' = Audio.isMuted s /\
    Audio.isAmbientOn s' = Audio.isAmbientOn s /\
    Audio.listener_isMuted s' = Audio.isMuted s /\
    (forall q, Audio.volume s = Fin q -> Audio.volume s' = Fin q) /\
    ((forall q, Audio.volume s <> Fin q) ->
     Audio.volume s' = Fin (6 # 10)).
Proof.
  intros Hr Hw.
  destruct (audio_persist_props s st Hr Hw)
    as (st' & o & Hsave & Hload & Pm & Pv & Pa).
  exists st', (Some o). unfold Audio.useAudio. rewrite Pm, Pv, Pa.
  destruct (Audio.volume s) as [q| | |]; cbn; eexists;
    (split; [exact Hsave|]); (split; [exact Hload|]);
    (split; [reflexivity|]); cbn; repeat split; try done;
    try (intros H; by destruct (H q)).
Qed.

Lemma audio_preferences_survive_reload_witness :
  exists st' r s',
    Audio.persist (Audio.State true (Fin (3 # 10)) true true false)
      prefs_store = Normal st' /\
    loadState st' = Normal r /\
    Audio.useAudio r = Some s' /\
    Audio.isMuted s' = true /\ Audio.volume s' = Fin (3 # 10).
Proof.
  destruct (audio_preferences_survive_reload
              (Audio.State true (Fin (3 # 10)) true true false) prefs_store
              eq_refl eq_refl)
    as (st' & r & s' & H1 & H2 & H3 & H4 & _ & _ & H5 & _).
  exists st', r, s'. repeat split; try done. by apply H5.
Defined.

Lemma audio_run_listener (ops : list Audio.op) s :
  Audio.listener_isMuted (Audio.run ops s) = Audio.listener_isMuted s.
Proof.
  revert s. induction ops as [|o ops IH]; intros s; [reflexivity|].
  cbn [Audio.run fold_left]. fold (Audio.run ops (Audio.apply o s)).
  rewrite IH. by destruct o.
Qed.

(** X22. Whether a completed session chimes is decided when the page
    loads.  When the stored preferences say muted, the listener of App.js
    never plays a chime nor shows a notification, whatever the user does
    to the mute state afterwards; when they say unmuted (or nothing is
    stored), it schedules the oscillators and, if granted, shows the
    notification even after the user has muted. *)
Theorem chime_follows_mute_state_at_load (persisted : option obj)
    (s0 : Audio.state) (ops : list Audio.op) (now : Q) (granted : bool)
    (justCompleted : string) :
  Audio.useAudio persisted = Some s0 ->
  let s := Audio.run ops s0 in
  (Audio.isMuted s0 = true ->
   (Audio.onSessionComplete s now granted justCompleted).2 = None) /\
  (Audio.isMuted s0 = false ->
   let type := if String.eqb justCompleted "focus"
                  || String.eqb justCompleted ""
               then "focus" else "break" in
   exists voices,
     (Audio.onSessionComplete s now granted justCompleted).2
       = Some (voices,
               if granted then Some (Audio.notification_body type)
               else None) /\
     length voices = length (Audio.notes type)).
Proof.
  intros Hs0. cbn zeta.
  assert (Hl : Audio.listener_isMuted s0 = Audio.isMuted s0).
  { revert Hs0. unfold Audio.useAudio.
    destruct (as_bool (nullish (prop persisted "soundMuted") _))
      as [muted|]; [|discriminate].
    destruct (Audio.as_any_number _) as [vol|]; [|discriminate].
    destruct (as_bool (nullish (prop persisted "ambientOn") _))
      as [ambient|]; [|discriminate].
    cbn [mbind option_bind]. by intros [= <-]. }
  unfold Audio.onSessionComplete, Audio.playChime. cbn [snd].
  rewrite audio_run_listener, Hl.
  split; intros ->; [reflexivity|].
  assert (Et : (if String.eqb (if String.eqb justCompleted "" then "focus"
                               else justCompleted) "focus"
                then "focus" else "break")
               = (if String.eqb justCompleted "focus"
                     || String.eqb justCompleted ""
                  then "focus" else "break")).
  { destruct (String.eqb justCompleted "") eqn:E1.
    - by rewrite orb_true_r.
    - rewrite orb_false_r.
      by destruct (String.eqb justCompleted "focus"). }
  rewrite Et. eexists. split; [reflexivity|]. apply length_imap.
Qed.

Lemma chime_follows_mute_state_at_load_witness :
  (Audio.onSessionComplete
     (Audio.run [Audio.Unmute; Audio.SetVolume (Fin 1)]
        (Audio.State true (Fin (6 # 10)) false false true))
     0 true "focus").2 = None.
Proof.
  apply (chime_follows_mute_state_at_load
           (Some {["soundMuted" := JBool true]})
           (Audio.State true (Fin (6 # 10)) false false true)
           [Audio.Unmute; Audio.SetVolume (Fin 1)] 0 true "focus");
    reflexivity.
Defined.

End AudioState.

(** * The closure of the first render, over a whole run *)

Section StaleMode.

Implicit Types (h : hook) (a : action) (acts : list action).

Lemma usePomodoro_mount_mode date_now rnd perf persisted h :
  usePomodoro date_now rnd perf persisted = Some h -> mount_mode h = mode h.
Proof.
  unfold usePomodoro.
  destruct (as_string _) as [mode0|]; [|discriminate].
  destruct (as_bool _) as [running0|]; [|discriminate].
  destruct (as_nullable_number (prop persisted "endAt"))
    as [endAt|]; [|discriminate].
  destruct (as_nullable_number (prop persisted "remainingMs"))
    as [stored|]; [|discriminate].
  destruct (as_number _) as [count0|]; [|discriminate].
  cbn [mbind option_bind]. intros [= <-].
  destruct (_ && _ && _); unfold startTicking; reflexivity.
Qed.

Lemma tick_mode now perf h :
  ((tick now perf h).2 = [] /\ mode (tick now perf h).1 = mode h) \/
  ((tick now perf h).2 = [announced_kind (mount_mode h)] /\
   mode (tick now perf h).1 = mode_after (mount_mode h)).
Proof.
  unfold tick. destruct (ticking h); cbn [negb]; [|by left].
  destruct (_ && _); [right|by left].
  unfold handleSessionComplete, announced_kind, mode_after.
  cbn [mount_mode setRemainingMs set_lastPerf].
  by destruct (String.eqb (mount_mode h) "focus").
Qed.

Lemma step_mode a h :
  ((step a h).2 = [] /\ mode (step a h).1 = mode h) \/
  ((step a h).2 = [announced_kind (mount_mode h)] /\
   mode (step a h).1 = mode_after (mount_mode h)).
Proof.
  destruct a as [perf| |perf| |focusM breakM|now perf|perf];
    cbn [step fst snd]; try (by left).
  - left. unfold start, startTicking. by destruct (ticking _).
  - left. unfold resume, startTicking. by destruct (ticking _).
  - unfold frame. destruct (rafId h); [apply tick_mode | by left].
Qed.

Lemma run_mode acts h :
  ((run acts h).2 = [] /\ mode (run acts h).1 = mode h) \/
  ((run acts h).2 <> [] /\
   Forall (fun e => e = announced_kind (mount_mode h)) (run acts h).2 /\
   mode (run acts h).1 = mode_after (mount_mode h)).
Proof.
  revert h. induction acts as [|a acts IH]; intros h; [by left|].
  rewrite run_cons. cbn [fst snd].
  destruct (step_static a h) as (_ & Emm & _).
  specialize (IH (step a h).1). rewrite Emm in IH.
  destruct (step_mode a h) as [[Ev Em]|[Ev Em]]; rewrite Ev.
  - cbn [app]. rewrite Em in IH. exact IH.
  - right. split; [done|].
    destruct IH as [[Ev' Em']|(_ & Hall & Em')].
    + rewrite Ev', Em', Em. split; [|done]. by repeat constructor.
    + split; [|exact Em']. by constructor.
Qed.

(** X23. During the life of a page the mode changes at most once.  Every
    completed session is announced with the kind of the mode the hook was
    mounted in, and puts the hook in the other mode: the first completion
    switches the mode, every later one leaves it there. *)
Theorem mode_changes_at_most_once (date_now rnd perf : Q)
    (persisted : option obj) (h0 : hook) (acts : list action) :
  usePomodoro date_now rnd perf persisted = Some h0 ->
  Forall (fun e => e = announced_kind (mode h0)) (run acts h0).2 /\
  ((run acts h0).2 = [] -> mode (run acts h0).1 = mode h0) /\
  ((run acts h0).2 <> [] -> mode (run acts h0).1 = mode_after (mode h0)).
Proof.
  intros Hh. pose proof (usePomodoro_mount_mode _ _ _ _ _ Hh) as Emm.
  destruct (run_mode acts h0) as [[Ev Em]|(Hne & Hall & Em)].
  - rewrite Ev. split; [constructor|]. split; [done|]. by intros [].
  - rewrite Emm in Hall, Em.
    split; [exact Hall|]. split; [by intros Ev|done].
Qed.

Lemma mode_changes_at_most_once_witness :
  (run [Start 0; Frame 1500000 1500000; Frame 1800000 1800000;
        Frame 2100000 2100000] fresh).2 = ["focus"; "focus"; "focus"] /\
  mode (run [Start 0; Frame 1500000 1500000; Frame 1800000 1800000;
             Frame 2100000 2100000] fresh).1 = "break".
Proof.
  destruct (mode_changes_at_most_once 0 (1 # 2) 0 None fresh
              [Start 0; Frame 1500000 1500000; Frame 1800000 1800000;
               Frame 2100000 2100000] eq_refl) as (_ & _ & H).
  split; [reflexivity|]. rewrite H; [reflexivity|]. vm_compute. discriminate.
Defined.

End StaleMode.
